(** * Drive-Time Company Map Viewer (src/streamlit_app.py)

    A shallow embedding of the Streamlit script: one execution of the
    script top to bottom is one [run], threading the process-wide
    [st.cache_data] store of [get_isochrone], the per-session
    [st.session_state] and a trace of the observable effects (network
    calls, [time.sleep], messages, map layers).  [st.stop()] and uncaught
    exceptions end a run early; both keep the world reached so far. *)

From Stdlib Require Import String List ZArith Bool Lia.
Import ListNotations.
Open Scope string_scope.
Open Scope Z_scope.

(** ** Python dicts as insertion-ordered association lists

    [eqb] is the lookup equality of the keys.  It need not be reflexive:
    Python finds a key when it is the same object or compares equal to it,
    and a NaN that is a different object from the stored key is found by
    neither test. *)
Module Dict.
Section Dict.
Variables K V : Type.
Variable eqb : K -> K -> bool.
Hypothesis eqb_sound : forall a b, eqb a b = true -> a = b.

(** [d.get(k)] *)
Fixpoint get (d : list (K * V)) (k : K) : option V :=
  match d with
  | [] => None
  | (k', v) :: d' => if eqb k' k then Some v else get d' k
  end.

(** [d[k] = v]: an existing key keeps its position, a new key goes last. *)
Fixpoint set (d : list (K * V)) (k : K) (v : V) : list (K * V) :=
  match d with
  | [] => [(k, v)]
  | (k', v') :: d' => if eqb k' k then (k', v) :: d' else (k', v') :: set d' k v
  end.

(** [d.setdefault(k, v)] (the returned value is unused by the script). *)
Definition setdefault (d : list (K * V)) (k : K) (v : V) : list (K * V) :=
  match get d k with
  | Some _ => d
  | None => d ++ [(k, v)]
  end.

Lemma get_set_eq d k v : eqb k k = true -> get (set d k v) k = Some v.
Proof.
  intros Hk. induction d as [|[k' v'] d IH]; simpl.
  - rewrite Hk. reflexivity.
  - destruct (eqb k' k) eqn:E; simpl.
    + rewrite E. reflexivity.
    + rewrite E. exact IH.
Qed.

Lemma get_set_ne d k k0 v : k <> k0 -> get (set d k v) k0 = get d k0.
Proof.
  intros Hne. induction d as [|[k' v'] d IH]; simpl.
  - destruct (eqb k k0) eqn:E; [apply eqb_sound in E; congruence | reflexivity].
  - destruct (eqb k' k) eqn:E; simpl.
    + apply eqb_sound in E; subst k'.
      destruct (eqb k k0) eqn:E0; [apply eqb_sound in E0; congruence | reflexivity].
    + destruct (eqb k' k0); [reflexivity | exact IH].
Qed.

Lemma get_app d1 d2 k :
  get (d1 ++ d2) k = match get d1 k with Some v => Some v | None => get d2 k end.
Proof.
  induction d1 as [|[k' v'] d1 IH]; simpl; [reflexivity|].
  destruct (eqb k' k); [reflexivity | exact IH].
Qed.

Lemma get_setdefault d k k0 v :
  get (setdefault d k v) k0 =
  match get d k0 with
  | Some w => Some w
  | None => if eqb k k0 then Some v else None
  end.
Proof.
  unfold setdefault. destruct (get d k) eqn:Ek.
  - destruct (get d k0) eqn:E0; [reflexivity|].
    destruct (eqb k k0) eqn:E; [|reflexivity].
    apply eqb_sound in E; subst k0. congruence.
  - rewrite get_app. destruct (get d k0); [reflexivity|]. simpl.
    destruct (eqb k k0); reflexivity.
Qed.

Lemma set_absent d k v : get d k = None -> set d k v = app d [(k, v)].
Proof.
  induction d as [|[k' v'] d IH]; simpl; [reflexivity|].
  destruct (eqb k' k); [discriminate|]. intros H. rewrite (IH H). reflexivity.
Qed.

Lemma map_fst_set d k v :
  eqb k k = true -> In k (map fst d) -> map fst (set d k v) = map fst d.
Proof.
  intros Hk. induction d as [|[k' v'] d IH]; simpl; [tauto|].
  intros H. destruct (eqb k' k) eqn:E; simpl; [reflexivity|].
  f_equal. apply IH. destruct H as [H|H]; [|exact H].
  subst k'. congruence.
Qed.

Lemma get_some_in d k v : get d k = Some v -> exists k', In (k', v) d /\ eqb k' k = true.
Proof.
  induction d as [|[k' v'] d IH]; simpl; [discriminate|].
  destruct (eqb k' k) eqn:E.
  - intros H; inversion H; subst. eauto.
  - intros H. destruct (IH H) as (k'' & Hin & Hk). eauto.
Qed.
End Dict.
End Dict.
Arguments Dict.get {K V} eqb d k.
Arguments Dict.set {K V} eqb d k v.
Arguments Dict.setdefault {K V} eqb d k v.

(** ** Data model *)

(** What [float(s)] makes of a text cell: an exception, a NaN (for texts
    such as "nan") or a finite number. *)
Inductive float_reading := NotFloat | FloatNaN | FloatFinite.

(** A spreadsheet cell as the script's rows yield it: a text, a number with
    the name of its Python type ("int", "float", "float64", ...) and an
    injective code of its numeric value, or a NaN (a blank cell) with the
    name of its type. *)
Inductive cell :=
| Str (s : string) (f : float_reading)
| Num (ty : string) (v : Z)
| NaN (ty : string).

Definition float_reading_eqb (a b : float_reading) : bool :=
  match a, b with
  | NotFloat, NotFloat | FloatNaN, FloatNaN | FloatFinite, FloatFinite => true
  | _, _ => false
  end.

(** How [st.cache_data] tells two hashed arguments apart: it hashes the type
    name together with the value, so an int and a float of the same value
    differ, and every NaN of one type hashes alike. *)
Definition cell_eqb (a b : cell) : bool :=
  match a, b with
  | Str s f, Str t g => String.eqb s t && float_reading_eqb f g
  | Num ty v, Num ty' v' => String.eqb ty ty' && (v =? v')
  | NaN ty, NaN ty' => String.eqb ty ty'
  | _, _ => false
  end.

Lemma cell_eqb_spec a b : cell_eqb a b = true <-> a = b.
Proof.
  destruct a as [s f|ty v|ty], b as [t g|ty' v'|ty']; simpl;
    try (split; [discriminate | intros H; inversion H]).
  - rewrite andb_true_iff, String.eqb_eq. split.
    + intros [-> H]. destruct f, g; try discriminate; reflexivity.
    + intros H; inversion H; subst. destruct g; auto.
  - rewrite andb_true_iff, String.eqb_eq, Z.eqb_eq. split.
    + intros [-> ->]. reflexivity.
    + intros H; inversion H; auto.
  - rewrite String.eqb_eq. split; [intros ->; reflexivity | intros H; inversion H; auto].
Qed.

(** The [st.cache_data] key of [get_isochrone(_client, lon, lat, seconds)]:
    the hashed arguments [(lon, lat, seconds)]. *)
Definition key : Type := (cell * cell * Z)%type.

Definition key_eqb (a b : key) : bool :=
  let '(x1, y1, s1) := a in
  let '(x2, y2, s2) := b in
  cell_eqb x1 x2 && cell_eqb y1 y2 && (s1 =? s2).

Lemma key_eqb_spec a b : key_eqb a b = true <-> a = b.
Proof.
  destruct a as [[x1 y1] s1], b as [[x2 y2] s2]; simpl.
  rewrite !andb_true_iff, !cell_eqb_spec, !Z.eqb_eq. split.
  - intros [[-> ->] ->]. reflexivity.
  - intros H. inversion H. auto.
Qed.

Lemma key_eqb_sound a b : key_eqb a b = true -> a = b.
Proof. apply key_eqb_spec. Qed.

Lemma key_eqb_refl a : key_eqb a a = true.
Proof. apply key_eqb_spec. reflexivity. Qed.

Lemma string_eqb_spec a b : String.eqb a b = true <-> a = b.
Proof. apply String.eqb_eq. Qed.

Lemma string_eqb_sound a b : String.eqb a b = true -> a = b.
Proof. apply String.eqb_eq. Qed.

(** A Python value read from a 'Company Location' or 'Company Name' cell
    and used as a dict or set key.  A NaN is either the shared [np.nan]
    object ([PNaN true]: the blank cells of a column that also holds text,
    dtype object) or a float made afresh by each [iterrows()] pass
    ([PNaN false]: the blank cells of a numeric column). *)
Inductive pyval := PStr (s : string) | PNum (v : Z) | PNaN (shared : bool).

(** Key lookup in a dict or set: the same object or [==].  [nan == nan] is
    false, so a NaN is found only when it is the very object stored. *)
Definition py_eqb (a b : pyval) : bool :=
  match a, b with
  | PStr s, PStr t => String.eqb s t
  | PNum x, PNum y => x =? y
  | PNaN true, PNaN true => true
  | _, _ => false
  end.

(** The equality of [pd.Series.unique()]: all NaNs are one value. *)
Definition unique_eqb (a b : pyval) : bool :=
  match a, b with
  | PNaN _, PNaN _ => true
  | _, _ => py_eqb a b
  end.

Definition is_text (c : cell) : bool :=
  match c with Str _ _ => true | _ => false end.

(** [pd.read_excel] gives a column dtype object when it holds some text,
    and a numeric dtype otherwise. *)
Definition object_column (cs : list cell) : bool := existsb is_text cs.

(** The key a cell gives as [row[col]] of [iterrows()], in a column that is
    of dtype object or not. *)
Definition read_cell (object : bool) (c : cell) : pyval :=
  match c with
  | Str s _ => PStr s
  | Num _ v => PNum v
  | NaN _ => PNaN object
  end.

(** The GeoJSON answer of [client.isochrones(...)]. *)
Definition polygon := string.

(** [openrouteservice.Client(key=...)]. *)
Record client := Client { client_key : string }.

(** The routing service: the answer of [_client.isochrones(locations=[[lon,
    lat]], profile='driving-car', range_type='time', intervals=[seconds])],
    a polygon or the provider's error message (an exception). *)
Definition network := client -> key -> polygon + string.

(** A row of the "Companies" sheet and of the "Projects" sheet. *)
Record company_row := CompanyRow {
  c_location : cell;     (* 'Company Location' *)
  c_name : cell;         (* 'Company Name' *)
  c_lat : cell;          (* 'Latitude' *)
  c_lon : cell           (* 'Longitude' *)
}.

Record project_row := ProjectRow {
  p_name : string;       (* 'Project Name' *)
  p_lat : cell;
  p_lon : cell
}.

(** A sheet as read by [pd.read_excel]: its header and its rows. *)
Record sheet (R : Type) := Sheet { columns : list string; rows : list R }.
Arguments Sheet {R} columns rows.
Arguments columns {R} s.
Arguments rows {R} s.

(** [row['Company Location']] and [row['Company Name']] of a row of the
    "Companies" sheet: the column's dtype decides what a blank cell gives. *)
Definition location (cdf : sheet company_row) (row : company_row) : pyval :=
  read_cell (object_column (map c_location (rows cdf))) (c_location row).

Definition company_name (cdf : sheet company_row) (row : company_row) : pyval :=
  read_cell (object_column (map c_name (rows cdf))) (c_name row).

(** An uploaded file: unreadable (with the parser's message), or a workbook
    whose "Companies" and "Projects" sheets may be absent. *)
Inductive upload :=
| Malformed (cause : string)
| Workbook (companies : option (sheet company_row)) (projects : option (sheet project_row)).

(** A value of [st.session_state.project_sites]. *)
Record site := Site { lat : cell; lon : cell; visible : bool }.

Record session := Session {
  competitor_visibility : list (pyval * bool);
  project_sites : list (string * site);
  all_competitors : list pyval;
  api_key : string
}.

(** A fresh session after line 16 and lines 19-20. *)
Definition empty_session : session := Session [] [] [] EmptyString.

(** Observable effects of a run. *)
Inductive event :=
| NetCall (c : client) (k : key)                 (* request to the provider *)
| Sleep (seconds : Z)                            (* [time.sleep] *)
| Warning (msg : string)                         (* [st.warning] *)
| Info (msg : string)                            (* [st.info] *)
| ErrorMsg (msg : string)                        (* [st.error] *)
| ProjectLayer (name : string) (iso : polygon)   (* GeoJson + star marker *)
| CompanyLayer (loc : pyval) (color : string) (iso : polygon)
| MapShown                                       (* [st_folium(m, ...)] *)
| Legend (items : list (pyval * string)).        (* legend HTML *)

(** The process: the [st.cache_data] store of [get_isochrone] (shared by
    all sessions, never evicted), the current session and the trace. *)
Record world := World {
  cache : list (key * polygon);
  sess : session;
  trace : list event
}.

(** How a run ends early: [st.stop()] or an uncaught exception. *)
Inductive halt := Stopped | Crashed (msg : string).

(** ** The script monad: state that survives a halt *)
Definition M (A : Type) := world -> (A + halt) * world.

Definition ret {A} (a : A) : M A := fun w => (inl a, w).
Definition bind {A B} (c : M A) (f : A -> M B) : M B :=
  fun w => match c w with
           | (inl a, w') => f a w'
           | (inr h, w') => (inr h, w')
           end.

Notation "x <- c ;; k" := (bind c (fun x => k))
  (at level 61, c at next level, right associativity).
Notation "c ;; k" := (bind c (fun _ : unit => k))
  (at level 61, right associativity).

Definition emit (e : event) : M unit :=
  fun w => (inl tt, World (cache w) (sess w) (trace w ++ [e])).
Definition get_sess : M session := fun w => (inl (sess w), w).
Definition put_sess (s : session) : M unit :=
  fun w => (inl tt, World (cache w) s (trace w)).
(** [st.stop()] *)
Definition stop {A} : M A := fun w => (inr Stopped, w).
(** An uncaught exception. *)
Definition crash {A} (msg : string) : M A := fun w => (inr (Crashed msg), w).

(** [for x in l: body(x)] *)
Fixpoint for_each {A} (l : list A) (body : A -> M unit) : M unit :=
  match l with
  | [] => ret tt
  | x :: l' => body x ;; for_each l' body
  end.

(** ** The script *)

(** Lines 74-82: [@st.cache_data def get_isochrone(_client, lon, lat, seconds)].
    The leading underscore keeps [_client] out of the hashed arguments, so
    the key is [(lon, lat, seconds)].  A hit returns the stored polygon; a
    miss calls the provider and stores the answer; an exception is not
    stored and propagates to the caller. *)
Definition get_isochrone (net : network) (cl : client) (lon lat : cell) (seconds : Z)
  : M polygon :=
  fun w =>
    let k := (lon, lat, seconds) in
    match Dict.get key_eqb (cache w) k with
    | Some iso => (inl iso, w)
    | None =>
        let tr := app (trace w) [NetCall cl k] in
        match net cl k with
        | inl iso => (inl iso, World (Dict.set key_eqb (cache w) k iso) (sess w) tr)
        | inr err => (inr (Crashed err), World (cache w) (sess w) tr)
        end
    end.

(** Lines 27-28: a non-empty text input replaces the stored key. *)
Definition store_api_key (api_key_input : string) : M unit :=
  s <- get_sess ;;
  if String.eqb api_key_input EmptyString then ret tt
  else put_sess (Session (competitor_visibility s) (project_sites s)
                         (all_competitors s) api_key_input).

Definition no_key_warning : string :=
  "Enter your API key to enable drive-time analysis features.".

(** Lines 31-35. *)
Definition make_client : M client :=
  s <- get_sess ;;
  if String.eqb (api_key s) EmptyString then emit (Warning no_key_warning) ;; stop
  else ret (Client (api_key s)).

Definition no_file_info : string :=
  "Please upload an Excel file with 'Companies' and 'Projects' sheets.".

Definition companies_required : list string :=
  ["Company Location"; "Latitude"; "Longitude"; "Company Name"].
Definition projects_required : list string :=
  ["Project Name"; "Latitude"; "Longitude"].

(** The first [col] of [required] for which [col in df.columns] fails. *)
Definition first_missing (required cols : list string) : option string :=
  find (fun col => negb (existsb (String.eqb col) cols)) required.

Definition missing_column_msg (sheet_name col : string) : string :=
  "'" ++ sheet_name ++ "' sheet must include '" ++ col ++ "' column.".

Definition load_error_msg (cause : string) : string :=
  "Error loading data: " ++ cause.

(** Lines 50-63: read both sheets, assert the required columns, and on any
    exception show it with [st.error] and stop. *)
Definition load (f : upload) : M (sheet company_row * sheet project_row) :=
  let fail cause := emit (ErrorMsg (load_error_msg cause)) ;; stop in
  match f with
  | Malformed cause => fail cause
  | Workbook None _ => fail "Worksheet named 'Companies' not found"
  | Workbook (Some _) None => fail "Worksheet named 'Projects' not found"
  | Workbook (Some cdf) (Some pdf) =>
      match first_missing companies_required (columns cdf) with
      | Some col => fail (missing_column_msg "Companies" col)
      | None =>
          match first_missing projects_required (columns pdf) with
          | Some col => fail (missing_column_msg "Projects" col)
          | None => ret (cdf, pdf)
          end
      end
  end.

(** Lines 67-72: [project_sites[row['Project Name']] = {...}] for each row. *)
Definition sites_of_rows (rs : list project_row) : list (string * site) :=
  fold_left
    (fun d r => Dict.set String.eqb d (p_name r) (Site (p_lat r) (p_lon r) true))
    rs [].

(** Lines 66-72: fill [project_sites] from the file only while it is empty. *)
Definition init_project_sites (pdf : sheet project_row) : M unit :=
  s <- get_sess ;;
  match project_sites s with
  | [] =>
      put_sess (Session (competitor_visibility s) (sites_of_rows (rows pdf))
                        (all_competitors s) (api_key s))
  | _ :: _ => ret tt
  end.

(** [set.add]: an element equal to (or the same object as) a member is not
    added again. *)
Definition set_add (l : list pyval) (x : pyval) : list pyval :=
  if existsb (py_eqb x) l then l else l ++ [x].

(** Lines 86-88: the body of the loop over the company rows. *)
Definition register_competitor (cdf : sheet company_row) (row : company_row) : M unit :=
  s <- get_sess ;;
  let cname := location cdf row in
  put_sess (Session
    (Dict.setdefault py_eqb (competitor_visibility s) cname true)
    (project_sites s)
    (set_add (all_competitors s) cname)
    (api_key s)).

(** Lines 85-88. *)
Definition init_competitors (cdf : sheet company_row) : M unit :=
  for_each (rows cdf) (register_competitor cdf).

(** Lines 91-93: [pdata["visible"] = st.sidebar.checkbox(pname,
    value=pdata["visible"])]; [checkbox pname v] is what the widget returns
    when drawn with default [v]. *)
Definition update_sites (checkbox : string -> bool -> bool) (sites : list (string * site))
  : list (string * site) :=
  map (fun '(pname, pdata) =>
         (pname, Site (lat pdata) (lon pdata) (checkbox pname (visible pdata))))
      sites.

Definition update_project_visibility (checkbox : string -> bool -> bool) : M unit :=
  s <- get_sess ;;
  put_sess (Session (competitor_visibility s) (update_sites checkbox (project_sites s))
                    (all_competitors s) (api_key s)).

(** [s.mean()] of a coordinate column, as far as the script depends on it:
    pandas raises a TypeError for a column holding text, and gives NaN for
    a column without numbers (all blank, or no rows). *)
Inductive mean := MeanTypeError | MeanNaN | MeanNumber.

Definition is_nan_cell (c : cell) : bool :=
  match c with NaN _ => true | _ => false end.

Definition column_mean (cs : list cell) : mean :=
  if object_column cs then MeanTypeError
  else if forallb is_nan_cell cs then MeanNaN
  else MeanNumber.

(** The message of folium's [validate_location] for a NaN coordinate. *)
Definition nan_msg : string := "Location values cannot contain NaNs.".

(** Lines 96-97: both means, then [folium.Map], which rejects a NaN centre. *)
Definition map_init (cdf : sheet company_row) : M unit :=
  match column_mean (map c_lat (rows cdf)), column_mean (map c_lon (rows cdf)) with
  | MeanTypeError, _ | _, MeanTypeError => crash "TypeError"
  | MeanNaN, _ | _, MeanNaN => crash nan_msg
  | MeanNumber, MeanNumber => ret tt
  end.

(** One coordinate of folium's [validate_location] ([folium.Marker]):
    [float(x)] must succeed and must not be NaN.  The ValueError's message
    quotes the value; the label stands for it. *)
Definition check_coord (c : cell) : M unit :=
  match c with
  | Num _ _ | Str _ FloatFinite => ret tt
  | Str _ NotFloat => crash "ValueError"
  | Str _ FloatNaN | NaN _ => crash nan_msg
  end.

Definition validate_location (la lo : cell) : M unit :=
  check_coord la ;; check_coord lo.

(** Lines 100-105: [plt.colormaps['tab20']] as hex strings; [colormap.N] is
    its length. *)
Definition tab20 : list string :=
  ["#1f77b4"; "#aec7e8"; "#ff7f0e"; "#ffbb78"; "#2ca02c"; "#98df8a";
   "#d62728"; "#ff9896"; "#9467bd"; "#c5b0d5"; "#8c564b"; "#c49c94";
   "#e377c2"; "#f7b6d2"; "#7f7f7f"; "#c7c7c7"; "#bcbd22"; "#dbdb8d";
   "#17becf"; "#9edae5"].

Definition colormap_N : nat := length tab20.

(** [mcolors.to_hex(colormap(i % colormap.N))] *)
Definition color_of (i : nat) : string := nth (Nat.modulo i colormap_N) tab20 EmptyString.

(** Distinct strings in order of first appearance (what [unique()] gives
    on a column of strings). *)
Fixpoint unique_from (seen : list string) (l : list string) : list string :=
  match l with
  | [] => []
  | x :: l' =>
      if existsb (String.eqb x) seen then unique_from seen l'
      else x :: unique_from (x :: seen) l'
  end.

Definition unique (l : list string) : list string := unique_from [] l.

(** [pd.Series.unique()] on a column's values: distinct values in order of
    first appearance, all NaNs counted as one. *)
Fixpoint series_unique_from (seen : list pyval) (l : list pyval) : list pyval :=
  match l with
  | [] => []
  | x :: l' =>
      if existsb (unique_eqb x) seen then series_unique_from seen l'
      else x :: series_unique_from (x :: seen) l'
  end.

Definition series_unique (l : list pyval) : list pyval := series_unique_from [] l.

(** [{name: color(i) for i, name in enumerate(unique_companies)}] *)
Definition company_colors (unique_companies : list pyval) : list (pyval * string) :=
  fst (fold_left (fun '(d, i) name => (Dict.set py_eqb d name (color_of i), S i))
                 unique_companies ([], 0%nat)).

(** Lines 109-123: the body of the project loop.  [ProjectLayer] stands for
    the GeoJson layer and the star marker; a layer added to [m] just before
    a marker that fails validation is never shown. *)
Definition project_body (net : network) (cl : client) (seconds : Z)
    (entry : string * site) : M unit :=
  let '(pname, pdata) := entry in
  if visible pdata then
    iso <- get_isochrone net cl (lon pdata) (lat pdata) seconds ;;
    validate_location (lat pdata) (lon pdata) ;;
    emit (ProjectLayer pname iso) ;;
    emit (Sleep 1)
  else ret tt.

(** Lines 108-123. *)
Definition project_isochrones (net : network) (cl : client) (seconds : Z) : M unit :=
  s <- get_sess ;;
  for_each (project_sites s) (project_body net cl seconds).

(** Lines 127-143: the body of the company loop. *)
Definition competitor_body (net : network) (cl : client) (seconds : Z)
    (cdf : sheet company_row) (colors : list (pyval * string)) (row : company_row)
    : M unit :=
  s <- get_sess ;;
  let cname := location cdf row in
  match Dict.get py_eqb (competitor_visibility s) cname with
  | None => crash "KeyError"
  | Some false => ret tt
  | Some true =>
      iso <- get_isochrone net cl (c_lon row) (c_lat row) seconds ;;
      match Dict.get py_eqb colors (company_name cdf row) with
      | None => crash "KeyError"
      | Some color =>
          validate_location (c_lat row) (c_lon row) ;;
          emit (CompanyLayer cname color iso) ;;
          emit (Sleep 1)
      end
  end.

(** Lines 126-143. *)
Definition competitor_isochrones (net : network) (cl : client) (seconds : Z)
    (cdf : sheet company_row) (colors : list (pyval * string)) : M unit :=
  for_each (rows cdf) (competitor_body net cl seconds cdf colors).

(** What the user has entered in the widgets for this run. *)
Record inputs := Inputs {
  api_key_input : string;                 (* the password text input *)
  minutes : Z;                            (* [manual_minutes], 1..300 *)
  uploaded_file : option upload;          (* the file uploader *)
  checkbox : string -> bool -> bool       (* the project checkboxes *)
}.

(** Lines 19-63: key, client, slider, upload, load. *)
Definition setup (inp : inputs) : M (client * sheet company_row * sheet project_row) :=
  store_api_key (api_key_input inp) ;;
  cl <- make_client ;;
  f <- match uploaded_file inp with
       | None => emit (Info no_file_info) ;; stop
       | Some f => ret f
       end ;;
  dfs <- load f ;;
  ret (cl, fst dfs, snd dfs).

(** One execution of the script. *)
Definition run (net : network) (inp : inputs) : M unit :=
  x <- setup inp ;;
  match x with
  | (cl, cdf, pdf) =>
      let seconds := minutes inp * 60 in
      init_project_sites pdf ;;
      init_competitors cdf ;;
      update_project_visibility (checkbox inp) ;;
      map_init cdf ;;
      let colors := company_colors (series_unique (map (company_name cdf) (rows cdf))) in
      project_isochrones net cl seconds ;;
      competitor_isochrones net cl seconds cdf colors ;;
      emit MapShown ;;
      emit (Legend colors)
  end.

(** Network calls recorded in a trace. *)
Fixpoint calls (tr : list event) : list key :=
  match tr with
  | [] => []
  | NetCall _ k :: tr' => k :: calls tr'
  | _ :: tr' => calls tr'
  end.

(** Delays recorded in a trace. *)
Fixpoint sleeps (tr : list event) : nat :=
  match tr with
  | [] => 0
  | Sleep _ :: tr' => S (sleeps tr')
  | _ :: tr' => sleeps tr'
  end.

(** Cells for the examples: a text and a Python float, coded in millionths
    of a degree. *)
Definition txt (s : string) : cell := Str s NotFloat.
Definition flt (v : Z) : cell := Num "float" v.

(** The spec's example: one project at (40.0, -74.0), one company of group
    "Acme" at (40.1, -74.1), 10 minutes. *)
Definition ex_companies : sheet company_row :=
  Sheet companies_required
    [CompanyRow (txt "Acme HQ") (txt "Acme") (flt 40100000) (flt (-74100000))].
Definition ex_projects : sheet project_row :=
  Sheet projects_required [ProjectRow "Site A" (flt 40000000) (flt (-74000000))].
Definition ex_inputs : inputs :=
  Inputs "k" 10 (Some (Workbook (Some ex_companies) (Some ex_projects))) (fun _ v => v).
Definition ex_net : network := fun _ k => inl "poly".

Example ex_run_calls :
  calls (trace (snd (run ex_net ex_inputs (World [] empty_session [])))) =
  [(flt (-74000000), flt 40000000, 600); (flt (-74100000), flt 40100000, 600)].
Proof. reflexivity. Qed.

Open Scope list_scope.

(** ** Invariants kept by every step *)

Lemma bind_inl {A B} (c : M A) (f : A -> M B) w a w' :
  c w = (inl a, w') -> bind c f w = f a w'.
Proof. intros H. unfold bind. rewrite H. reflexivity. Qed.

Lemma bind_inr {A B} (c : M A) (f : A -> M B) w h w' :
  c w = (inr h, w') -> bind c f w = (inr h, w').
Proof. intros H. unfold bind. rewrite H. reflexivity. Qed.

Lemma bind_cases {A B} (c : M A) (f : A -> M B) w r w' :
  bind c f w = (r, w') ->
  (exists a w1, c w = (inl a, w1) /\ f a w1 = (r, w')) \/
  (exists h, c w = (inr h, w') /\ r = inr h).
Proof.
  unfold bind. destruct (c w) as [[a|h] w1].
  - intros H. left. exists a, w1. split; [reflexivity | exact H].
  - intros H. inversion H; subst. right. exists h. split; reflexivity.
Qed.

Section Keeps.
Variable R : world -> world -> Prop.
Hypothesis R_refl : forall w, R w w.
Hypothesis R_trans : forall w1 w2 w3, R w1 w2 -> R w2 w3 -> R w1 w3.

(** [c] relates its start and end worlds by [R], whether it halts or not. *)
Definition keeps {A} (c : M A) : Prop := forall w, R w (snd (c w)).

Lemma keeps_ret {A} (a : A) : keeps (ret a).
Proof. intros w. apply R_refl. Qed.

Lemma keeps_stop {A} : keeps (@stop A).
Proof. intros w. apply R_refl. Qed.

Lemma keeps_crash {A} msg : keeps (@crash A msg).
Proof. intros w. apply R_refl. Qed.

Lemma keeps_get_sess : keeps get_sess.
Proof. intros w. apply R_refl. Qed.

Lemma keeps_bind {A B} (c : M A) (f : A -> M B) :
  keeps c -> (forall a, keeps (f a)) -> keeps (bind c f).
Proof.
  intros Hc Hf w. unfold bind. specialize (Hc w).
  destruct (c w) as [[a|h] w'] eqn:E; simpl in *; [|exact Hc].
  eapply R_trans; [exact Hc | apply Hf].
Qed.

Lemma keeps_for_each {A} (l : list A) (body : A -> M unit) :
  (forall x, keeps (body x)) -> keeps (for_each l body).
Proof.
  intros Hb. induction l as [|x l IH]; simpl.
  - apply keeps_ret.
  - apply keeps_bind; [apply Hb | intros _; exact IH].
Qed.
End Keeps.

Ltac keeps_step :=
  match goal with
  | |- keeps _ (bind _ _) => apply keeps_bind; [.. | intro]; try assumption
  | |- keeps _ (ret _) => apply keeps_ret; assumption
  | |- keeps _ stop => apply keeps_stop; assumption
  | |- keeps _ (crash _) => apply keeps_crash; assumption
  | |- keeps _ get_sess => apply keeps_get_sess; assumption
  | |- keeps _ (for_each _ _) => apply keeps_for_each; [.. | intro]; try assumption
  | |- keeps _ (match ?x with _ => _ end) => destruct x
  | |- keeps _ (let '(_, _) := ?x in _) => destruct x
  end.

Lemma keeps_result {A} R (c : M A) w r w' : keeps R c -> c w = (r, w') -> R w w'.
Proof. intros K E. specialize (K w). rewrite E in K. exact K. Qed.

(** *** The cache only grows *)

Definition cache_grows (w w' : world) : Prop :=
  forall k iso, Dict.get key_eqb (cache w) k = Some iso ->
                Dict.get key_eqb (cache w') k = Some iso.

Lemma cache_grows_refl w : cache_grows w w.
Proof. intros k iso H. exact H. Qed.

Lemma cache_grows_trans w1 w2 w3 :
  cache_grows w1 w2 -> cache_grows w2 w3 -> cache_grows w1 w3.
Proof. intros H1 H2 k iso H. auto. Qed.

Lemma get_isochrone_cache_grows net cl lon lat seconds :
  keeps cache_grows (get_isochrone net cl lon lat seconds).
Proof.
  intros w k iso H. unfold get_isochrone. cbv beta zeta.
  destruct (Dict.get key_eqb (cache w) (lon, lat, seconds)) eqn:E; [exact H|].
  destruct (net cl (lon, lat, seconds)); simpl; [|exact H].
  rewrite Dict.get_set_ne; [exact H | exact key_eqb_sound |].
  intros Heq. subst k. congruence.
Qed.

Lemma emit_cache_grows e : keeps cache_grows (emit e).
Proof. intros w k iso H. exact H. Qed.

Lemma put_sess_cache_grows s : keeps cache_grows (put_sess s).
Proof. intros w k iso H. exact H. Qed.

Lemma cache_grows_refl' : forall w, cache_grows w w.
Proof. exact cache_grows_refl. Qed.
Lemma cache_grows_trans' : forall w1 w2 w3,
  cache_grows w1 w2 -> cache_grows w2 w3 -> cache_grows w1 w3.
Proof. exact cache_grows_trans. Qed.

Create HintDb cachedb.
Local Hint Resolve get_isochrone_cache_grows emit_cache_grows put_sess_cache_grows : cachedb.

Lemma run_cache_grows net inp : keeps cache_grows (run net inp).
Proof.
  pose proof cache_grows_refl'. pose proof cache_grows_trans'.
  unfold run, setup, store_api_key, make_client, load, init_project_sites,
    init_competitors, register_competitor, update_project_visibility, map_init,
    project_isochrones, competitor_isochrones, project_body, competitor_body,
    validate_location, check_coord.
  repeat (keeps_step || (progress unfold Datatypes.fst, Datatypes.snd)
          || (solve [eauto with cachedb]) || (destruct (String.eqb _ _))).
Qed.

(** *** Python values as keys *)

Lemma py_eqb_sound a b : py_eqb a b = true -> a = b.
Proof.
  destruct a as [s|x|[]], b as [t|y|[]]; simpl; intros H; try discriminate H;
    try reflexivity.
  - apply String.eqb_eq in H. subst. reflexivity.
  - apply Z.eqb_eq in H. subst. reflexivity.
Qed.

Lemma py_eqb_sym a b : py_eqb a b = py_eqb b a.
Proof.
  destruct a as [s|x|[]], b as [t|y|[]]; simpl; try reflexivity.
  - apply String.eqb_sym.
  - apply Z.eqb_sym.
Qed.

Lemma py_eqb_refl a : a <> PNaN false -> py_eqb a a = true.
Proof.
  destruct a as [s|x|[]]; simpl; intros H.
  - apply String.eqb_refl.
  - apply Z.eqb_refl.
  - reflexivity.
  - contradiction.
Qed.

Lemma py_eqb_fresh a : py_eqb a (PNaN false) = false.
Proof. destruct a as [s|x|[]]; reflexivity. Qed.

(** A NaN made afresh is found in no dict. *)
Lemma dict_get_fresh {V} (d : list (pyval * V)) : Dict.get py_eqb d (PNaN false) = None.
Proof.
  induction d as [|[k v] d IH]; simpl; [reflexivity|]. rewrite py_eqb_fresh. exact IH.
Qed.

Lemma unique_eqb_of_py a b : py_eqb a b = true -> unique_eqb a b = true.
Proof. destruct a as [s|x|[]], b as [t|y|[]]; simpl; auto. Qed.

Lemma unique_eqb_sym a b : unique_eqb a b = unique_eqb b a.
Proof.
  destruct a as [s|x|[]], b as [t|y|[]]; simpl; try reflexivity.
  - apply String.eqb_sym.
  - apply Z.eqb_sym.
Qed.

Lemma unique_eqb_refl a : unique_eqb a a = true.
Proof. destruct a as [s|x|[]]; simpl; auto using String.eqb_refl, Z.eqb_refl. Qed.

Lemma existsb_false_iff {A} (f : A -> bool) l :
  existsb f l = false <-> forall y, In y l -> f y = false.
Proof.
  induction l as [|x l IH]; simpl; [tauto|].
  rewrite orb_false_iff, IH. split.
  - intros [Hx Hl] y [<-|Hy]; auto.
  - intros H. split; auto.
Qed.

(** No two elements are equal for [eqb] (fresh NaNs may repeat for
    [py_eqb], as they do in a Python set). *)
Fixpoint distinct_by {A} (eqb : A -> A -> bool) (l : list A) : Prop :=
  match l with
  | [] => True
  | x :: l' => existsb (eqb x) l' = false /\ distinct_by eqb l'
  end.

Lemma distinct_by_weaken {A} (e1 e2 : A -> A -> bool) l :
  (forall a b, e1 a b = true -> e2 a b = true) -> distinct_by e2 l -> distinct_by e1 l.
Proof.
  intros Hw. induction l as [|x l IH]; simpl; [tauto|]. intros [Hx Hl]. split; [|auto].
  apply existsb_false_iff. intros y Hy. rewrite existsb_false_iff in Hx.
  destruct (e1 x y) eqn:E; [|reflexivity]. apply Hw in E. rewrite (Hx y Hy) in E. discriminate E.
Qed.

Lemma distinct_py_snoc l x :
  distinct_by py_eqb l -> existsb (py_eqb x) l = false -> distinct_by py_eqb (l ++ [x]).
Proof.
  induction l as [|y l IH]; simpl; [auto|]. intros [Hy Hl] Hx.
  apply orb_false_iff in Hx as [Hxy Hx]. split; [|auto].
  rewrite existsb_app. simpl. rewrite Hy, py_eqb_sym, Hxy. reflexivity.
Qed.

Lemma series_unique_from_In seen l x : In x (series_unique_from seen l) -> In x l.
Proof.
  revert seen. induction l as [|y l IH]; intros seen; simpl; [tauto|].
  destruct (existsb (unique_eqb y) seen).
  - intros H. right. exact (IH _ H).
  - intros [<-|H]; [left; reflexivity | right; exact (IH _ H)].
Qed.

Lemma series_unique_from_spec seen l :
  (forall x, In x (series_unique_from seen l) -> existsb (unique_eqb x) seen = false) /\
  distinct_by unique_eqb (series_unique_from seen l).
Proof.
  revert seen. induction l as [|y l IH]; intros seen; simpl; [split; [tauto | exact I]|].
  destruct (existsb (unique_eqb y) seen) eqn:E; [apply IH|].
  destruct (IH (y :: seen)) as [Hs Hd]. split.
  - intros x [<-|Hx]; [exact E|]. specialize (Hs x Hx). simpl in Hs.
    apply orb_false_iff in Hs. tauto.
  - simpl. split; [|exact Hd]. apply existsb_false_iff. intros x Hx.
    specialize (Hs x Hx). simpl in Hs. apply orb_false_iff in Hs as [Hs _].
    rewrite unique_eqb_sym. exact Hs.
Qed.

Lemma series_unique_distinct l : distinct_by unique_eqb (series_unique l).
Proof. apply series_unique_from_spec. Qed.

Lemma series_unique_from_cover seen l x :
  In x l ->
  existsb (unique_eqb x) seen = true \/
  exists y, In y (series_unique_from seen l) /\ unique_eqb x y = true.
Proof.
  revert seen. induction l as [|z l IH]; intros seen; simpl; [tauto|].
  intros Hx. destruct (existsb (unique_eqb z) seen) eqn:E.
  - destruct Hx as [->|Hx]; [left; exact E | exact (IH seen Hx)].
  - destruct Hx as [->|Hx].
    + right. exists x. split; [left; reflexivity | apply unique_eqb_refl].
    + destruct (IH (z :: seen) Hx) as [H|[y [Hy Hxy]]].
      * simpl in H. apply orb_true_iff in H as [H|H]; [|left; exact H].
        right. exists z. split; [left; reflexivity | exact H].
      * right. exists y. split; [right; exact Hy | exact Hxy].
Qed.

(** All NaNs of the list are the same kind of object. *)
Definition uniform_nan (l : list pyval) : Prop :=
  forall b b', In (PNaN b) l -> In (PNaN b') l -> b = b'.

Lemma read_column_uniform o (cs : list cell) : uniform_nan (map (read_cell o) cs).
Proof.
  intros b b' Hb Hb'. apply in_map_iff in Hb as [c [Hc _]], Hb' as [c' [Hc' _]].
  destruct c, c'; simpl in Hc, Hc'; try discriminate. congruence.
Qed.

Lemma company_name_uniform cdf : uniform_nan (map (company_name cdf) (rows cdf)).
Proof.
  unfold company_name. rewrite <- (map_map c_name (read_cell _)). apply read_column_uniform.
Qed.

(** A value of a column that is not a fresh NaN is found, by dict lookup,
    among the column's unique values. *)
Lemma series_unique_lookup l g :
  uniform_nan l -> In g l -> g <> PNaN false ->
  exists j y, nth_error (series_unique l) j = Some y /\ py_eqb y g = true.
Proof.
  intros Hu Hg Hf. destruct (series_unique_from_cover [] l g Hg) as [H|[y [Hy Hgy]]];
    [discriminate H|].
  apply In_nth_error in Hy as Hj. destruct Hj as [j Hj]. exists j, y. split; [exact Hj|].
  pose proof (series_unique_from_In _ _ _ Hy) as Hyl.
  destruct g as [s|x|[]]; simpl in Hgy.
  - destruct y as [t|v|b]; try discriminate. simpl. rewrite String.eqb_sym. exact Hgy.
  - destruct y as [t|v|b]; try discriminate. simpl. rewrite Z.eqb_sym. exact Hgy.
  - destruct y as [t|v|b]; try discriminate. rewrite (Hu b true Hyl Hg). reflexivity.
  - contradiction.
Qed.

(** *** Colors *)

(** The dict built by the comprehension, entry by entry. *)
Fixpoint enum_colors (i : nat) (names : list pyval) : list (pyval * string) :=
  match names with
  | [] => []
  | n :: ns => (n, color_of i) :: enum_colors (S i) ns
  end.

Lemma company_colors_fold names d i :
  distinct_by py_eqb names -> (forall n, In n names -> Dict.get py_eqb d n = None) ->
  fold_left (fun '(d, i) name => (Dict.set py_eqb d name (color_of i), S i))
            names (d, i) = (d ++ enum_colors i names, (i + length names)%nat).
Proof.
  revert d i. induction names as [|n ns IH]; intros d i Hnd Hout; simpl.
  - rewrite app_nil_r, Nat.add_0_r. reflexivity.
  - destruct Hnd as [Hn Hnd'].
    rewrite Dict.set_absent by (apply Hout; left; reflexivity).
    rewrite IH; [|exact Hnd'|].
    + rewrite <- app_assoc. f_equal. lia.
    + intros m Hm. rewrite Dict.get_app, (Hout m (or_intror Hm)). simpl.
      rewrite existsb_false_iff in Hn. rewrite (Hn m Hm). reflexivity.
Qed.

Lemma company_colors_eq names :
  distinct_by py_eqb names -> company_colors names = enum_colors 0 names.
Proof.
  intros H. unfold company_colors. rewrite company_colors_fold; [reflexivity | exact H |].
  intros n _. reflexivity.
Qed.

Lemma map_fst_enum_colors i names : map fst (enum_colors i names) = names.
Proof. revert i. induction names as [|n names IH]; intros i; simpl; [|rewrite IH]; reflexivity. Qed.

Lemma nth_error_enum_colors i names j g :
  nth_error names j = Some g -> nth_error (enum_colors i names) j = Some (g, color_of (i + j)).
Proof.
  revert i j. induction names as [|n names IH]; intros i j H; [destruct j; discriminate|].
  destruct j as [|j]; simpl in H |- *.
  - inversion H; subst. rewrite Nat.add_0_r. reflexivity.
  - rewrite (IH (S i) j H). do 3 f_equal. lia.
Qed.

Lemma enum_colors_get names i j y g :
  distinct_by py_eqb names -> nth_error names j = Some y -> py_eqb y g = true ->
  Dict.get py_eqb (enum_colors i names) g = Some (color_of (i + j)).
Proof.
  revert i j. induction names as [|n ns IH]; intros i j Hnd Hj Hyg.
  - destruct j; discriminate.
  - destruct Hnd as [Hn Hnd']. simpl.
    destruct j as [|j]; simpl in Hj.
    + inversion Hj; subst. rewrite Hyg, Nat.add_0_r. reflexivity.
    + destruct (py_eqb n g) eqn:E.
      * exfalso. apply py_eqb_sound in E. pose proof Hyg as Hyg'. apply py_eqb_sound in Hyg'.
        subst n y. rewrite existsb_false_iff in Hn.
        rewrite (Hn g (nth_error_In _ _ Hj)) in Hyg. discriminate.
      * rewrite (IH (S i) j Hnd' Hj Hyg). f_equal. f_equal. lia.
Qed.

Lemma color_of_tab20 i : In (color_of i) tab20.
Proof. unfold color_of. apply nth_In. apply Nat.mod_upper_bound. discriminate. Qed.

(** Lines 100-105 and 130: the colour a row's 'Company Name' finds. *)
Lemma company_colors_lookup l g :
  uniform_nan l -> In g l -> g <> PNaN false ->
  exists j, nth_error (series_unique l) j <> None /\
    Dict.get py_eqb (company_colors (series_unique l)) g = Some (color_of j).
Proof.
  intros Hu Hg Hf. destruct (series_unique_lookup l g Hu Hg Hf) as [j [y [Hj Hy]]].
  exists j. split; [rewrite Hj; discriminate|].
  assert (Hd : distinct_by py_eqb (series_unique l))
    by (apply (distinct_by_weaken _ unique_eqb); [exact unique_eqb_of_py | apply series_unique_distinct]).
  rewrite company_colors_eq by exact Hd. exact (enum_colors_get _ 0 j y g Hd Hj Hy).
Qed.

Lemma map_fst_company_colors names :
  distinct_by py_eqb names -> map fst (company_colors names) = names.
Proof. intros H. rewrite company_colors_eq by exact H. apply map_fst_enum_colors. Qed.

(** *** Company visibility entries stay [true] *)

Definition all_visible (s : session) : Prop :=
  forall cname b, Dict.get py_eqb (competitor_visibility s) cname = Some b -> b = true.

Definition vis_kept (w w' : world) : Prop := all_visible (sess w) -> all_visible (sess w').

Lemma vis_kept_refl : forall w, vis_kept w w.
Proof. intros w H. exact H. Qed.

Lemma vis_kept_trans : forall w1 w2 w3, vis_kept w1 w2 -> vis_kept w2 w3 -> vis_kept w1 w3.
Proof. intros w1 w2 w3 H1 H2 H. auto. Qed.

Lemma get_isochrone_sess net cl lon lat seconds w :
  sess (snd (get_isochrone net cl lon lat seconds w)) = sess w.
Proof.
  unfold get_isochrone. cbv beta zeta.
  destruct (Dict.get key_eqb (cache w) _); [reflexivity|].
  destruct (net cl _); reflexivity.
Qed.

Lemma get_isochrone_vis net cl lon lat seconds :
  keeps vis_kept (get_isochrone net cl lon lat seconds).
Proof. intros w. unfold vis_kept. rewrite get_isochrone_sess. auto. Qed.

Lemma emit_vis e : keeps vis_kept (emit e).
Proof. intros w H. exact H. Qed.

Lemma store_api_key_vis k : keeps vis_kept (store_api_key k).
Proof.
  intros w H. unfold store_api_key, bind, get_sess.
  destruct (String.eqb k EmptyString); exact H.
Qed.

Lemma init_project_sites_vis pdf : keeps vis_kept (init_project_sites pdf).
Proof.
  intros w H. unfold init_project_sites, bind, get_sess.
  destruct (project_sites (sess w)); exact H.
Qed.

Lemma init_competitors_vis cdf : keeps vis_kept (init_competitors cdf).
Proof.
  unfold init_competitors, register_competitor.
  apply keeps_for_each; [exact vis_kept_refl | exact vis_kept_trans |].
  intros row w H cname b. simpl.
  rewrite Dict.get_setdefault by exact py_eqb_sound.
  destruct (Dict.get py_eqb (competitor_visibility (sess w)) cname) eqn:E.
  - intros Hb. inversion Hb; subst. exact (H _ _ E).
  - destruct (py_eqb _ _); congruence.
Qed.

Lemma update_project_visibility_vis cb : keeps vis_kept (update_project_visibility cb).
Proof. intros w H. exact H. Qed.

Create HintDb visdb.
Local Hint Resolve get_isochrone_vis emit_vis store_api_key_vis init_project_sites_vis
  init_competitors_vis update_project_visibility_vis : visdb.

Lemma run_vis net inp : keeps vis_kept (run net inp).
Proof.
  pose proof vis_kept_refl. pose proof vis_kept_trans.
  unfold run, setup, make_client, load, map_init, project_isochrones, competitor_isochrones,
    project_body, competitor_body, validate_location, check_coord.
  repeat (keeps_step || (solve [eauto with visdb]) || (destruct (String.eqb _ _))).
Qed.

(** Worlds a session can reach: a fresh session (next to whatever the
    process-wide cache holds), then any number of runs. *)
Inductive reachable : world -> Prop :=
| reach_start c : reachable (World c empty_session [])
| reach_run w net inp : reachable w -> reachable (snd (run net inp w)).

Lemma reachable_all_visible w : reachable w -> all_visible (sess w).
Proof.
  induction 1 as [c|w net inp _ IH].
  - intros cname b H. discriminate H.
  - exact (run_vis net inp w IH).
Qed.

(** ** Traces and keys *)

Fixpoint company_layers (tr : list event) : list pyval :=
  match tr with
  | [] => []
  | CompanyLayer loc _ _ :: tr' => loc :: company_layers tr'
  | _ :: tr' => company_layers tr'
  end.

(** Project layers in a trace. *)
Fixpoint project_layers (tr : list event) : list string :=
  match tr with
  | [] => []
  | ProjectLayer name _ :: tr' => name :: project_layers tr'
  | _ :: tr' => project_layers tr'
  end.

Lemma calls_app a b : calls (a ++ b) = calls a ++ calls b.
Proof. induction a as [|[] a IH]; simpl; rewrite ?IH; reflexivity. Qed.

Lemma sleeps_app a b : sleeps (a ++ b) = (sleeps a + sleeps b)%nat.
Proof. induction a as [|[] a IH]; simpl; rewrite ?IH; reflexivity. Qed.

Lemma company_layers_app a b :
  company_layers (a ++ b) = company_layers a ++ company_layers b.
Proof. induction a as [|[] a IH]; simpl; rewrite ?IH; reflexivity. Qed.

Lemma project_layers_app a b : project_layers (a ++ b) = project_layers a ++ project_layers b.
Proof. induction a as [|[] a IH]; simpl; rewrite ?IH; reflexivity. Qed.

Definition mem_key (k : key) (seen : list key) : bool :=
  existsb (fun k' => key_eqb k' k) seen.

(** Keys of [ks] not in [seen], each once, in order of first appearance. *)
Fixpoint new_keys (seen ks : list key) : list key :=
  match ks with
  | [] => []
  | k :: ks' => if mem_key k seen then new_keys seen ks' else k :: new_keys (seen ++ [k]) ks'
  end.

Lemma dict_get_none_mem (d : list (key * polygon)) k :
  Dict.get key_eqb d k = None <-> mem_key k (map fst d) = false.
Proof.
  induction d as [|[k' v] d IH]; simpl; [tauto|].
  destruct (key_eqb k' k); simpl; [split; discriminate | exact IH].
Qed.

Lemma mem_key_In k seen : mem_key k seen = true <-> In k seen.
Proof.
  unfold mem_key. rewrite existsb_exists. split.
  - intros [k' [H E]]. apply key_eqb_spec in E. subst. exact H.
  - intros H. exists k. split; [exact H | apply key_eqb_refl].
Qed.

Lemma new_keys_In seen ks k : In k (new_keys seen ks) <-> In k ks /\ ~ In k seen.
Proof.
  revert seen. induction ks as [|k0 ks IH]; intros seen; simpl; [tauto|].
  destruct (mem_key k0 seen) eqn:M.
  - apply mem_key_In in M. rewrite IH. split; [tauto|].
    intros [[<-|H] H']; [contradiction | tauto].
  - simpl. rewrite IH, in_app_iff. simpl.
    assert (~ In k0 seen) by (intros H; apply mem_key_In in H; congruence).
    split.
    + intros [<-|[H1 H2]]; [tauto|]. split; [tauto|]. tauto.
    + intros [[<-|H1] H2]; [left; reflexivity|].
      destruct (key_eqb k0 k) eqn:E; [apply key_eqb_spec in E; left; exact E|].
      right. split; [exact H1|]. intros [H3|[H3|[]]]; [tauto|].
      subst. rewrite key_eqb_refl in E. discriminate.
Qed.


Lemma new_keys_length seen ks : (length (new_keys seen ks) <= length ks)%nat.
Proof.
  revert seen. induction ks as [|k ks IH]; intros seen; simpl; [lia|].
  destruct (mem_key k seen); simpl.
  - specialize (IH seen). lia.
  - specialize (IH (seen ++ [k])). lia.
Qed.


Lemma new_keys_seen seen ks : (forall k, In k ks -> In k seen) -> new_keys seen ks = [].
Proof.
  intros H. destruct (new_keys seen ks) as [|k l] eqn:E; [reflexivity|].
  exfalso. assert (Hk : In k (new_keys seen ks)) by (rewrite E; left; reflexivity).
  apply new_keys_In in Hk as [H1 H2]. exact (H2 (H k H1)).
Qed.

Lemma new_keys_app seen a b :
  new_keys seen (a ++ b) = new_keys seen a ++ new_keys (seen ++ new_keys seen a) b.
Proof.
  revert seen. induction a as [|k a IH]; intros seen; simpl.
  - rewrite app_nil_r. reflexivity.
  - destruct (mem_key k seen); [apply IH|].
    rewrite IH. simpl. rewrite <- app_assoc. reflexivity.
Qed.

Definition site_key (seconds : Z) (entry : string * site) : key :=
  (lon (snd entry), lat (snd entry), seconds).

(** Keys looked up by the project loop: those of the visible sites. *)
Definition visible_keys (seconds : Z) (sites : list (string * site)) : list key :=
  map (site_key seconds) (filter (fun e => visible (snd e)) sites).

Definition row_key (seconds : Z) (row : company_row) : key :=
  (c_lon row, c_lat row, seconds).

Lemma for_each_cons {A} (x : A) l body w :
  for_each (x :: l) body w =
  match body x w with
  | (inl _, w') => for_each l body w'
  | (inr h, w') => (inr h, w')
  end.
Proof. reflexivity. Qed.

Lemma visible_keys_cons seconds pname pdata sites :
  visible_keys seconds ((pname, pdata) :: sites) =
  if visible pdata then (lon pdata, lat pdata, seconds) :: visible_keys seconds sites
  else visible_keys seconds sites.
Proof. unfold visible_keys. simpl. destruct (visible pdata); reflexivity. Qed.

(** ** Lines 19-93: setup and session *)

Lemma existsb_string_In x l : existsb (String.eqb x) l = true <-> In x l.
Proof.
  rewrite existsb_exists. split.
  - intros [y [Hy E]]. apply String.eqb_eq in E. subst. exact Hy.
  - intros H. exists x. split; [exact H | apply String.eqb_refl].
Qed.

(** The session after lines 27-28. *)
Definition with_key (api_key_input : string) (s : session) : session :=
  if String.eqb api_key_input EmptyString then s
  else Session (competitor_visibility s) (project_sites s) (all_competitors s) api_key_input.

Lemma store_api_key_eq k w :
  store_api_key k w = (inl tt, World (cache w) (with_key k (sess w)) (trace w)).
Proof.
  unfold store_api_key, with_key, bind, get_sess, put_sess, ret.
  destruct (String.eqb k EmptyString); [destruct w|]; reflexivity.
Qed.

Lemma with_key_api_key k s :
  api_key (with_key k s) = if String.eqb k EmptyString then api_key s else k.
Proof. unfold with_key. destruct (String.eqb k EmptyString); reflexivity. Qed.

Lemma with_key_entered k s :
  (k <> EmptyString \/ api_key s <> EmptyString) ->
  String.eqb (api_key (with_key k s)) EmptyString = false.
Proof.
  intros H. rewrite with_key_api_key. apply String.eqb_neq.
  destruct (String.eqb k EmptyString) eqn:E.
  - apply String.eqb_eq in E. destruct H; [contradiction | assumption].
  - apply String.eqb_neq. exact E.
Qed.

Lemma with_key_entered_inv k s :
  api_key (with_key k s) <> EmptyString -> k <> EmptyString \/ api_key s <> EmptyString.
Proof.
  rewrite with_key_api_key. destruct (String.eqb_spec k EmptyString); [right | left]; assumption.
Qed.

Lemma with_key_fields k s :
  competitor_visibility (with_key k s) = competitor_visibility s /\
  project_sites (with_key k s) = project_sites s /\
  all_competitors (with_key k s) = all_competitors s.
Proof. unfold with_key. destruct (String.eqb k EmptyString); auto. Qed.

(** Lines 19-48 once a key is known and a file is uploaded: what is left
    is the load. *)
Lemma setup_with_file inp w f :
  let s1 := with_key (api_key_input inp) (sess w) in
  String.eqb (api_key s1) EmptyString = false ->
  uploaded_file inp = Some f ->
  setup inp w =
  bind (load f) (fun dfs => ret (Client (api_key s1), fst dfs, snd dfs))
       (World (cache w) s1 (trace w)).
Proof.
  intros s1 Hk Hf. unfold s1 in *. clear s1.
  unfold setup, make_client, bind, get_sess, ret. rewrite store_api_key_eq. simpl.
  rewrite Hk, Hf. reflexivity.
Qed.

Lemma run_setup_halt net inp w h w' :
  setup inp w = (inr h, w') -> run net inp w = (inr h, w').
Proof. intros H. unfold run, bind at 1. rewrite H. reflexivity. Qed.

(** How lines 19-63 end: a single message and [st.stop()], or a client
    for the session's key and both checked sheets. *)
Lemma setup_outcome inp w :
  let s1 := with_key (api_key_input inp) (sess w) in
  (exists e, (forall cl k, e <> NetCall cl k) /\
     setup inp w = (inr Stopped, World (cache w) s1 (trace w ++ [e]))) \/
  (exists cdf pdf,
     setup inp w = (inl (Client (api_key s1), cdf, pdf), World (cache w) s1 (trace w)) /\
     api_key s1 <> EmptyString /\
     uploaded_file inp = Some (Workbook (Some cdf) (Some pdf)) /\
     first_missing companies_required (columns cdf) = None /\
     first_missing projects_required (columns pdf) = None).
Proof.
  intros s1.
  destruct (String.eqb (api_key s1) EmptyString) eqn:Ek.
  - left. exists (Warning no_key_warning). split; [intros cl k; discriminate|].
    unfold setup. rewrite (bind_inl _ _ _ _ _ (store_api_key_eq _ w)). fold s1.
    unfold make_client, bind, get_sess, emit, stop. simpl. rewrite Ek. reflexivity.
  - destruct (uploaded_file inp) as [f|] eqn:Ef.
    + rewrite (setup_with_file inp w f Ek Ef).
      destruct f as [cause|[cdf|] [pdf|]].
      * left. eexists. split; [|reflexivity]. intros cl k; discriminate.
      * unfold load. destruct (first_missing companies_required (columns cdf)) eqn:Hc.
        { left. eexists. split; [|reflexivity]. intros cl k; discriminate. }
        destruct (first_missing projects_required (columns pdf)) eqn:Hp.
        { left. eexists. split; [|reflexivity]. intros cl k; discriminate. }
        right. exists cdf, pdf. repeat split; auto.
        apply String.eqb_neq. exact Ek.
      * left. eexists. split; [|reflexivity]. intros cl k; discriminate.
      * left. eexists. split; [|reflexivity]. intros cl k; discriminate.
      * left. eexists. split; [|reflexivity]. intros cl k; discriminate.
    + left. exists (Info no_file_info). split; [intros cl k; discriminate|].
      unfold setup. rewrite (bind_inl _ _ _ _ _ (store_api_key_eq _ w)). fold s1.
      unfold make_client, bind, get_sess, emit, stop, ret. simpl. rewrite Ek, Ef. reflexivity.
Qed.

(** Lines 19-63 with a key and a file that passes the checks. *)
Lemma setup_loaded inp w cdf pdf :
  (api_key_input inp <> EmptyString \/ api_key (sess w) <> EmptyString) ->
  uploaded_file inp = Some (Workbook (Some cdf) (Some pdf)) ->
  first_missing companies_required (columns cdf) = None ->
  first_missing projects_required (columns pdf) = None ->
  let s1 := with_key (api_key_input inp) (sess w) in
  setup inp w = (inl (Client (api_key s1), cdf, pdf), World (cache w) s1 (trace w)).
Proof.
  intros Hk Hf Hc Hp s1. rewrite (setup_with_file inp w _ (with_key_entered _ _ Hk) Hf).
  unfold load. rewrite Hc, Hp. reflexivity.
Qed.

(** The first missing column of a list of required ones. *)
Lemma first_missing_first required cols c :
  first_missing required cols = Some c ->
  exists pre post, required = pre ++ c :: post /\
    (forall c', In c' pre -> In c' cols) /\ ~ In c cols.
Proof.
  unfold first_missing. induction required as [|r required IH]; simpl; [discriminate|].
  destruct (existsb (String.eqb r) cols) eqn:E; simpl.
  - intros H. destruct (IH H) as [pre [post [Hr [Hpre Hc]]]].
    exists (r :: pre), post. split; [rewrite Hr; reflexivity|]. split; [|exact Hc].
    intros c' [<-|Hin]; [apply existsb_string_In; exact E | exact (Hpre c' Hin)].
  - intros H. inversion H; subst. exists [], required. split; [reflexivity|].
    split; [intros c' []|]. intros Hin. apply existsb_string_In in Hin. congruence.
Qed.

Lemma first_missing_none required cols :
  (forall c, In c required -> In c cols) -> first_missing required cols = None.
Proof.
  unfold first_missing. induction required as [|r required IH]; simpl; intros H; [reflexivity|].
  assert (existsb (String.eqb r) cols = true) as ->by (apply existsb_string_In; auto).
  simpl. apply IH. auto.
Qed.

Lemma first_missing_none_inv required cols :
  first_missing required cols = None -> forall c, In c required -> In c cols.
Proof.
  unfold first_missing. intros H c Hc. pose proof (find_none _ _ H c Hc) as E. simpl in E.
  apply negb_false_iff, existsb_string_In in E. exact E.
Qed.

Lemma first_missing_some required cols col :
  In col required -> ~ In col cols -> exists c, first_missing required cols = Some c.
Proof.
  intros Hin Hout. destruct (first_missing required cols) as [c|] eqn:E; [eauto|].
  exfalso. exact (Hout (first_missing_none_inv _ _ E col Hin)).
Qed.

(** [project_sites] after lines 66-72. *)
Definition init_sites (ps : list (string * site)) (pdf : sheet project_row)
  : list (string * site) :=
  match ps with
  | [] => sites_of_rows (rows pdf)
  | _ :: _ => ps
  end.

Lemma init_project_sites_ok pdf w :
  init_project_sites pdf w =
  (inl tt, World (cache w)
     (Session (competitor_visibility (sess w)) (init_sites (project_sites (sess w)) pdf)
              (all_competitors (sess w)) (api_key (sess w))) (trace w)).
Proof.
  destruct w as [c [cv ps ac k] tr]. unfold init_project_sites, bind, get_sess. simpl.
  destruct ps; reflexivity.
Qed.

Lemma update_project_visibility_ok cb w :
  update_project_visibility cb w =
  (inl tt, World (cache w)
     (Session (competitor_visibility (sess w)) (update_sites cb (project_sites (sess w)))
              (all_competitors (sess w)) (api_key (sess w))) (trace w)).
Proof. reflexivity. Qed.

Lemma register_competitor_eq cdf row w :
  register_competitor cdf row w =
  (inl tt, World (cache w)
     (Session (Dict.setdefault py_eqb (competitor_visibility (sess w)) (location cdf row) true)
              (project_sites (sess w)) (set_add (all_competitors (sess w)) (location cdf row))
              (api_key (sess w))) (trace w)).
Proof. reflexivity. Qed.

(** Lines 85-88 as a fold over the locations the rows give. *)
Definition register_all (locs : list pyval) (cv : list (pyval * bool)) (ac : list pyval)
  : list (pyval * bool) * list pyval :=
  fold_left (fun '(cv, ac) cname =>
               (Dict.setdefault py_eqb cv cname true, set_add ac cname))
            locs (cv, ac).

Lemma init_competitors_eq cdf w :
  init_competitors cdf w =
  (inl tt, World (cache w)
     (Session (fst (register_all (map (location cdf) (rows cdf))
                      (competitor_visibility (sess w)) (all_competitors (sess w))))
              (project_sites (sess w))
              (snd (register_all (map (location cdf) (rows cdf))
                      (competitor_visibility (sess w)) (all_competitors (sess w))))
              (api_key (sess w))) (trace w)).
Proof.
  unfold init_competitors, register_all. generalize (rows cdf) as rs. intros rs. revert w.
  induction rs as [|row rs IH]; intros w.
  - destruct w as [c [cv ps ac k] tr]. reflexivity.
  - rewrite for_each_cons, register_competitor_eq. rewrite IH. reflexivity.
Qed.

Lemma set_add_In l x y : In y (set_add l x) <-> In y l \/ y = x.
Proof.
  unfold set_add. destruct (existsb (py_eqb x) l) eqn:E.
  - apply existsb_exists in E as [z [Hz Exz]]. apply py_eqb_sound in Exz. subst z.
    split; [tauto|]. intros [H| ->]; assumption.
  - rewrite in_app_iff. simpl. intuition congruence.
Qed.

Lemma set_add_distinct l x : distinct_by py_eqb l -> distinct_by py_eqb (set_add l x).
Proof.
  unfold set_add. destruct (existsb (py_eqb x) l) eqn:E; intros H; [exact H|].
  apply distinct_py_snoc; assumption.
Qed.

Lemma register_all_spec locs cv ac :
  let r := register_all locs cv ac in
  (forall n, Dict.get py_eqb (fst r) n =
     match Dict.get py_eqb cv n with
     | Some b => Some b
     | None => if existsb (py_eqb n) locs then Some true else None
     end) /\
  (forall n, In n (snd r) <-> In n ac \/ In n locs) /\
  (distinct_by py_eqb ac -> distinct_by py_eqb (snd r)) /\
  (forall n, In n (map fst cv) \/ In n locs -> In n (map fst (fst r))).
Proof.
  unfold register_all. revert cv ac. induction locs as [|x locs IH]; intros cv ac; simpl.
  - repeat split; auto.
    + intros n. destruct (Dict.get py_eqb cv n); reflexivity.
    + tauto.
    + intros n [H|[]]. exact H.
  - destruct (IH (Dict.setdefault py_eqb cv x true) (set_add ac x)) as [H1 [H2 [H3 H4]]].
    repeat split.
    + intros n. rewrite H1, Dict.get_setdefault by exact py_eqb_sound.
      destruct (Dict.get py_eqb cv n); [reflexivity|].
      rewrite (py_eqb_sym n x). destruct (py_eqb x n); reflexivity.
    + intros Hn. apply H2 in Hn. rewrite set_add_In in Hn. intuition congruence.
    + intros Hn. apply H2. rewrite set_add_In. intuition congruence.
    + intros Hnd. apply H3. apply set_add_distinct. exact Hnd.
    + intros n Hn. apply H4. unfold Dict.setdefault.
      destruct (Dict.get py_eqb cv x) as [b|] eqn:E.
      * destruct Hn as [Hn|[<-|Hn]]; [left; exact Hn | | right; exact Hn].
        left. apply Dict.get_some_in in E as [k' [Hk Ek]].
        apply py_eqb_sound in Ek. subst k'. apply (in_map fst) in Hk. exact Hk.
      * rewrite map_app, in_app_iff. simpl. intuition.
Qed.

(** A registered location that is not a fresh NaN is found again. *)
Lemma register_all_found locs cv ac n :
  In n locs -> n <> PNaN false ->
  exists b, Dict.get py_eqb (fst (register_all locs cv ac)) n = Some b.
Proof.
  intros Hin Hf. destruct (register_all_spec locs cv ac) as [Hg _]. rewrite Hg.
  destruct (Dict.get py_eqb cv n) as [b|]; [eauto|].
  assert (existsb (py_eqb n) locs = true) as -> by
    (apply existsb_exists; exists n; split; [exact Hin | apply py_eqb_refl; exact Hf]).
  eauto.
Qed.

Lemma register_all_vis locs cv ac :
  (forall n b, Dict.get py_eqb cv n = Some b -> b = true) ->
  forall n b, Dict.get py_eqb (fst (register_all locs cv ac)) n = Some b -> b = true.
Proof.
  intros H n b. destruct (register_all_spec locs cv ac) as [Hg _]. rewrite Hg.
  destruct (Dict.get py_eqb cv n) eqn:E; [intros Hb; inversion Hb; subst; exact (H _ _ E)|].
  destruct (existsb (py_eqb n) locs); congruence.
Qed.

(** Lines 65-170: the rest of [run] once the sheets are loaded. *)
Definition render (net : network) (inp : inputs) (cl : client)
    (cdf : sheet company_row) (pdf : sheet project_row) : M unit :=
  let seconds := minutes inp * 60 in
  init_project_sites pdf ;;
  init_competitors cdf ;;
  update_project_visibility (checkbox inp) ;;
  map_init cdf ;;
  let colors := company_colors (series_unique (map (company_name cdf) (rows cdf))) in
  project_isochrones net cl seconds ;;
  competitor_isochrones net cl seconds cdf colors ;;
  emit MapShown ;;
  emit (Legend colors).

Lemma run_render net inp w cl cdf pdf w1 :
  setup inp w = (inl (cl, cdf, pdf), w1) -> run net inp w = render net inp cl cdf pdf w1.
Proof. intros E. unfold run. rewrite (bind_inl _ _ _ _ _ E). reflexivity. Qed.

(** The session after lines 65-93. *)
Definition loaded_session (inp : inputs) (cdf : sheet company_row) (pdf : sheet project_row)
    (s : session) : session :=
  let r := register_all (map (location cdf) (rows cdf)) (competitor_visibility s)
             (all_competitors s) in
  Session (fst r) (update_sites (checkbox inp) (init_sites (project_sites s) pdf)) (snd r)
          (api_key s).

Lemma render_init net inp cl cdf pdf w :
  render net inp cl cdf pdf w =
  (map_init cdf ;;
   project_isochrones net cl (minutes inp * 60) ;;
   competitor_isochrones net cl (minutes inp * 60) cdf
     (company_colors (series_unique (map (company_name cdf) (rows cdf)))) ;;
   emit MapShown ;;
   emit (Legend (company_colors (series_unique (map (company_name cdf) (rows cdf))))))
  (World (cache w) (loaded_session inp cdf pdf (sess w)) (trace w)).
Proof.
  unfold render. rewrite (bind_inl _ _ _ _ _ (init_project_sites_ok pdf w)).
  rewrite (bind_inl _ _ _ _ _ (init_competitors_eq cdf _)).
  rewrite (bind_inl _ _ _ _ _ (update_project_visibility_ok _ _)).
  unfold loaded_session, init_sites. simpl. destruct (project_sites (sess w)); reflexivity.
Qed.

Lemma loaded_session_vis inp cdf pdf s :
  all_visible s -> all_visible (loaded_session inp cdf pdf s).
Proof. intros H. unfold loaded_session, all_visible. simpl. apply register_all_vis. exact H. Qed.

Lemma with_key_vis k s : all_visible s -> all_visible (with_key k s).
Proof. unfold all_visible. rewrite (proj1 (with_key_fields k s)). auto. Qed.

(** The drawing steps keep the session. *)
Definition sess_same (w w' : world) : Prop := sess w' = sess w.

Lemma sess_same_refl : forall w, sess_same w w.
Proof. intros w. reflexivity. Qed.

Lemma sess_same_trans : forall w1 w2 w3, sess_same w1 w2 -> sess_same w2 w3 -> sess_same w1 w3.
Proof. unfold sess_same. intros w1 w2 w3 H1 H2. congruence. Qed.

Lemma get_isochrone_sess_same net cl lon lat seconds :
  keeps sess_same (get_isochrone net cl lon lat seconds).
Proof. intros w. apply get_isochrone_sess. Qed.

Lemma emit_sess_same e : keeps sess_same (emit e).
Proof. intros w. reflexivity. Qed.

Create HintDb sessdb.
Local Hint Resolve get_isochrone_sess_same emit_sess_same : sessdb.

Lemma draw_sess_same net cl seconds cdf colors :
  keeps sess_same (map_init cdf ;;
                   project_isochrones net cl seconds ;;
                   competitor_isochrones net cl seconds cdf colors ;;
                   emit MapShown ;;
                   emit (Legend colors)).
Proof.
  pose proof sess_same_refl. pose proof sess_same_trans.
  unfold map_init, project_isochrones, competitor_isochrones, project_body, competitor_body,
    validate_location, check_coord.
  repeat (keeps_step || (solve [eauto with sessdb])).
Qed.

Lemma project_loop_sess net cl seconds sites :
  keeps sess_same (for_each sites (project_body net cl seconds)).
Proof.
  pose proof sess_same_refl. pose proof sess_same_trans.
  unfold project_body, validate_location, check_coord.
  repeat (keeps_step || (solve [eauto with sessdb])).
Qed.

Lemma competitor_body_sess net cl seconds cdf colors row :
  keeps sess_same (competitor_body net cl seconds cdf colors row).
Proof.
  pose proof sess_same_refl. pose proof sess_same_trans.
  unfold competitor_body, validate_location, check_coord.
  repeat (keeps_step || (solve [eauto with sessdb])).
Qed.

Lemma run_loaded_session net inp w cdf pdf :
  (api_key_input inp <> EmptyString \/ api_key (sess w) <> EmptyString) ->
  uploaded_file inp = Some (Workbook (Some cdf) (Some pdf)) ->
  first_missing companies_required (columns cdf) = None ->
  first_missing projects_required (columns pdf) = None ->
  sess (snd (run net inp w)) = loaded_session inp cdf pdf (with_key (api_key_input inp) (sess w)).
Proof.
  intros Hk Hf Hc Hp.
  rewrite (run_render net _ _ _ _ _ _ (setup_loaded inp w cdf pdf Hk Hf Hc Hp)), render_init.
  rewrite (draw_sess_same net _ _ cdf _ _). reflexivity.
Qed.

(** ** The drawing loops *)

(** [float(c)] succeeds and is not NaN: folium accepts the coordinate. *)
Definition coord_ok (c : cell) : bool :=
  match c with
  | Num _ _ | Str _ FloatFinite => true
  | _ => false
  end.

Lemma check_coord_ok c w : coord_ok c = true -> check_coord c w = (inl tt, w).
Proof. destruct c as [s []|ty v|ty]; simpl; intros H; try discriminate H; reflexivity. Qed.

Lemma check_coord_inl c w r w' : check_coord c w = (inl r, w') -> coord_ok c = true /\ w' = w.
Proof. destruct c as [s []|ty v|ty]; simpl; intros H; inversion H; auto. Qed.

Lemma validate_location_ok la lo w :
  coord_ok la = true -> coord_ok lo = true -> validate_location la lo w = (inl tt, w).
Proof.
  intros H1 H2. unfold validate_location. rewrite (bind_inl _ _ _ _ _ (check_coord_ok la w H1)).
  apply check_coord_ok. exact H2.
Qed.

Lemma validate_location_inl la lo w r w' :
  validate_location la lo w = (inl r, w') ->
  coord_ok la = true /\ coord_ok lo = true /\ w' = w.
Proof.
  unfold validate_location. intros H.
  apply bind_cases in H as [[a [w1 [H1 H2]]]|[h [_ Hh]]]; [|discriminate Hh].
  apply check_coord_inl in H1 as [Ok1 ->]. apply check_coord_inl in H2 as [Ok2 ->]. auto.
Qed.

(** Every key of [ks] is in the cache [c] or answered by the provider. *)
Definition served (net : network) (cl : client) (c : list (key * polygon)) (ks : list key)
  : Prop :=
  forall k, In k ks -> In k (map fst c) \/ exists iso, net cl k = inl iso.

(** The keys a step adds to the cache are answered by the provider. *)
Definition keys_answered (net : network) (cl : client) (w w' : world) : Prop :=
  forall k, In k (map fst (cache w')) -> In k (map fst (cache w)) \/ exists iso, net cl k = inl iso.

Lemma keys_answered_refl net cl : forall w, keys_answered net cl w w.
Proof. intros w k H. left. exact H. Qed.

Lemma keys_answered_trans net cl : forall w1 w2 w3,
  keys_answered net cl w1 w2 -> keys_answered net cl w2 w3 -> keys_answered net cl w1 w3.
Proof. intros w1 w2 w3 H1 H2 k H. destruct (H2 k H) as [H'|H']; [exact (H1 k H') | right; exact H']. Qed.

Lemma served_back net cl w w1 ks :
  keys_answered net cl w w1 -> served net cl (cache w1) ks -> served net cl (cache w) ks.
Proof.
  intros Ha Hs k Hk. destruct (Hs k Hk) as [H|H]; [exact (Ha k H) | right; exact H].
Qed.

Lemma served_grow net cl c c' ks :
  served net cl c ks -> (forall k, In k (map fst c) -> In k (map fst c')) -> served net cl c' ks.
Proof. intros Hs Hc k Hk. destruct (Hs k Hk) as [H|H]; [left; auto | right; exact H]. Qed.

Lemma get_isochrone_answered net cl lon lat seconds :
  keeps (keys_answered net cl) (get_isochrone net cl lon lat seconds).
Proof.
  intros w k. unfold get_isochrone. cbv beta zeta.
  destruct (Dict.get key_eqb (cache w) (lon, lat, seconds)) eqn:E; [simpl; auto|].
  destruct (net cl (lon, lat, seconds)) as [iso|err] eqn:N; simpl; [|auto].
  rewrite (Dict.set_absent _ _ key_eqb _ _ _ E), map_app, in_app_iff. simpl.
  intros [H|[<-|[]]]; [left; exact H | right; exists iso; exact N].
Qed.

Lemma emit_answered net cl e : keeps (keys_answered net cl) (emit e).
Proof. intros w k H. left. exact H. Qed.

Create HintDb ansdb.
Local Hint Resolve get_isochrone_answered emit_answered : ansdb.

Lemma project_body_answered net cl seconds e :
  keeps (keys_answered net cl) (project_body net cl seconds e).
Proof.
  pose proof (keys_answered_refl net cl). pose proof (keys_answered_trans net cl).
  unfold project_body, validate_location, check_coord.
  repeat (keeps_step || (solve [eauto with ansdb])).
Qed.

Lemma competitor_body_answered net cl seconds cdf colors row :
  keeps (keys_answered net cl) (competitor_body net cl seconds cdf colors row).
Proof.
  pose proof (keys_answered_refl net cl). pose proof (keys_answered_trans net cl).
  unfold competitor_body, validate_location, check_coord.
  repeat (keeps_step || (solve [eauto with ansdb])).
Qed.

Lemma project_loop_answered net cl seconds sites :
  keeps (keys_answered net cl) (for_each sites (project_body net cl seconds)).
Proof.
  apply keeps_for_each; [apply keys_answered_refl | apply keys_answered_trans |].
  intros e. apply project_body_answered.
Qed.

Lemma get_isochrone_ok net cl lon lat seconds w :
  let k := (lon, lat, seconds) in
  (In k (map fst (cache w)) \/ exists iso, net cl k = inl iso) ->
  let fresh := if mem_key k (map fst (cache w)) then [] else [k] in
  exists iso, get_isochrone net cl lon lat seconds w =
    (inl iso, World (cache w ++ map (fun k => (k, iso)) fresh) (sess w)
                    (trace w ++ map (NetCall cl) fresh)).
Proof.
  intros k Hs fresh. unfold get_isochrone, fresh. fold k.
  destruct (Dict.get key_eqb (cache w) k) as [iso|] eqn:E.
  - assert (mem_key k (map fst (cache w)) = true) as ->.
    { destruct (mem_key k (map fst (cache w))) eqn:M; [reflexivity|].
      apply dict_get_none_mem in M. congruence. }
    exists iso. simpl. rewrite !app_nil_r. destruct w; reflexivity.
  - pose proof E as M. apply dict_get_none_mem in M. rewrite M.
    destruct Hs as [Hin|[iso Hi]].
    + apply mem_key_In in Hin. congruence.
    + rewrite Hi. exists iso. rewrite Dict.set_absent by exact E. reflexivity.
Qed.

Lemma get_isochrone_inl net cl lon lat seconds w iso w' :
  get_isochrone net cl lon lat seconds w = (inl iso, w') ->
  In (lon, lat, seconds) (map fst (cache w)) \/
  exists iso', net cl (lon, lat, seconds) = inl iso'.
Proof.
  unfold get_isochrone. cbv beta zeta.
  destruct (Dict.get key_eqb (cache w) (lon, lat, seconds)) eqn:E.
  - intros _. left. apply Dict.get_some_in in E as [k' [Hk Ek]].
    apply key_eqb_sound in Ek. subst k'. apply (in_map fst) in Hk. exact Hk.
  - destruct (net cl (lon, lat, seconds)) eqn:N; intros H; [|discriminate H].
    right. eexists. reflexivity.
Qed.

Lemma map_fst_fresh c (fresh : list key) (iso : polygon) :
  map fst (c ++ map (fun k => (k, iso)) fresh) = map fst c ++ fresh.
Proof. rewrite map_app, map_map. simpl. rewrite map_id. reflexivity. Qed.

Lemma calls_netcalls cl ks : calls (map (NetCall cl) ks) = ks.
Proof. induction ks; simpl; congruence. Qed.

Lemma sleeps_netcalls cl ks : sleeps (map (NetCall cl) ks) = 0%nat.
Proof. induction ks; simpl; congruence. Qed.

Lemma layers_netcalls cl ks : company_layers (map (NetCall cl) ks) = [].
Proof. induction ks; simpl; congruence. Qed.

(** The project sites that folium accepts: every visible one has two
    usable coordinates. *)
Definition sites_drawable (sites : list (string * site)) : Prop :=
  forall e, In e sites -> visible (snd e) = true ->
    coord_ok (lat (snd e)) = true /\ coord_ok (lon (snd e)) = true.

Lemma project_body_ok net cl seconds pname pdata w :
  let k := (lon pdata, lat pdata, seconds) in
  (visible pdata = true ->
     coord_ok (lat pdata) = true /\ coord_ok (lon pdata) = true /\
     (In k (map fst (cache w)) \/ exists iso, net cl k = inl iso)) ->
  let fresh := if mem_key k (map fst (cache w)) then [] else [k] in
  exists iso, project_body net cl seconds (pname, pdata) w =
    if visible pdata then
      (inl tt, World (cache w ++ map (fun k => (k, iso)) fresh) (sess w)
                     (trace w ++ map (NetCall cl) fresh ++ [ProjectLayer pname iso; Sleep 1]))
    else (inl tt, w).
Proof.
  intros k Hv fresh. unfold project_body. cbv iota beta.
  destruct (visible pdata); [|exists EmptyString; reflexivity].
  destruct (Hv eq_refl) as [Hla [Hlo Hs]].
  destruct (get_isochrone_ok net cl (lon pdata) (lat pdata) seconds w Hs) as [iso Hg].
  exists iso. rewrite (bind_inl _ _ _ _ _ Hg).
  rewrite (bind_inl _ _ _ _ _ (validate_location_ok _ _ _ Hla Hlo)).
  unfold bind, emit. simpl. rewrite <- !app_assoc. reflexivity.
Qed.

Lemma project_loop_ok net cl seconds sites w :
  sites_drawable sites -> served net cl (cache w) (visible_keys seconds sites) ->
  exists c' new,
    for_each sites (project_body net cl seconds) w =
      (inl tt, World c' (sess w) (trace w ++ new)) /\
    map fst c' = map fst (cache w) ++ calls new /\
    calls new = new_keys (map fst (cache w)) (visible_keys seconds sites) /\
    sleeps new = length (visible_keys seconds sites) /\
    company_layers new = [].
Proof.
  revert w. induction sites as [|[pname pdata] sites IH]; intros w Hd Hs.
  - exists (cache w), []. simpl. rewrite app_nil_r. destruct w; repeat split.
    rewrite app_nil_r; reflexivity.
  - rewrite for_each_cons. rewrite visible_keys_cons in Hs |- *.
    destruct (project_body_ok net cl seconds pname pdata w) as [iso Hb].
    { intros V. destruct (Hd (pname, pdata) (or_introl eq_refl) V) as [H1 H2].
      split; [exact H1|]. split; [exact H2|]. apply Hs. rewrite V. left. reflexivity. }
    cbv zeta in Hb. rewrite Hb.
    assert (Hd' : sites_drawable sites) by (intros e He; apply Hd; right; exact He).
    destruct (visible pdata).
    2:{ exact (IH w Hd' Hs). }
    set (k := (lon pdata, lat pdata, seconds)) in *.
    set (fresh := if mem_key k (map fst (cache w)) then [] else [k]) in *.
    set (w1 := World (cache w ++ map (fun k => (k, iso)) fresh) (sess w)
                 (trace w ++ map (NetCall cl) fresh ++ [ProjectLayer pname iso; Sleep 1])).
    assert (Hs1 : served net cl (cache w1) (visible_keys seconds sites)).
    { apply (served_grow net cl (cache w)).
      - intros k' Hk'. apply Hs. right. exact Hk'.
      - intros k' Hk'. unfold w1. simpl. rewrite map_fst_fresh, in_app_iff. left. exact Hk'. }
    destruct (IH w1 Hd' Hs1) as [c' [new [Hrun [Hc [Hcalls [Hsl Hly]]]]]].
    exists c', (map (NetCall cl) fresh ++ [ProjectLayer pname iso; Sleep 1] ++ new).
    rewrite Hrun. unfold w1 in *. simpl in Hc, Hcalls |- *.
    rewrite map_fst_fresh in Hc, Hcalls.
    rewrite <- !app_assoc. simpl.
    rewrite !calls_app, !sleeps_app, !company_layers_app, calls_netcalls,
      sleeps_netcalls, layers_netcalls. simpl.
    unfold fresh in *.
    destruct (mem_key k (map fst (cache w))); simpl;
      rewrite ?app_nil_r in *; repeat split; try assumption.
    all: first [ rewrite Hsl; reflexivity
               | rewrite Hc, <- app_assoc; reflexivity
               | rewrite Hcalls; reflexivity ].
Qed.

Lemma project_body_needs net cl seconds pname pdata w w1 :
  project_body net cl seconds (pname, pdata) w = (inl tt, w1) ->
  visible pdata = true ->
  coord_ok (lat pdata) = true /\ coord_ok (lon pdata) = true /\
  (In (lon pdata, lat pdata, seconds) (map fst (cache w)) \/
   exists iso, net cl (lon pdata, lat pdata, seconds) = inl iso).
Proof.
  intros B V. unfold project_body in B. cbv iota beta in B. rewrite V in B.
  apply bind_cases in B as [[iso [w2 [G B]]]|[h [_ Hh]]]; [|discriminate Hh].
  apply bind_cases in B as [[u [w3 [Hval _]]]|[h [_ Hh]]]; [|discriminate Hh].
  apply validate_location_inl in Hval as [H1 [H2 _]].
  split; [exact H1|]. split; [exact H2|]. exact (get_isochrone_inl _ _ _ _ _ _ _ _ G).
Qed.

Lemma project_loop_needs net cl seconds sites w w' :
  for_each sites (project_body net cl seconds) w = (inl tt, w') ->
  sites_drawable sites /\ served net cl (cache w) (visible_keys seconds sites).
Proof.
  revert w. induction sites as [|[pname pdata] sites IH]; intros w.
  - intros _. split; [intros e []| intros k []].
  - rewrite for_each_cons.
    destruct (project_body net cl seconds (pname, pdata) w) as [[[]|h] w1] eqn:B;
      [|discriminate].
    intros H. destruct (IH w1 H) as [Hd Hs].
    pose proof (keeps_result _ _ _ _ _ (project_body_answered net cl seconds (pname, pdata)) B)
      as Ha.
    split.
    + intros e [<-|He] V; [|exact (Hd e He V)].
      simpl in V |- *. destruct (project_body_needs _ _ _ _ _ _ _ B V) as [H1 [H2 _]]. auto.
    + rewrite visible_keys_cons. intros k Hk.
      destruct (visible pdata) eqn:V.
      * destruct Hk as [<-|Hk]; [exact (proj2 (proj2 (project_body_needs _ _ _ _ _ _ _ B V)))|].
        exact (served_back _ _ _ _ _ Ha Hs k Hk).
      * exact (served_back _ _ _ _ _ Ha Hs k Hk).
Qed.

(** What lines 128-142 need of a row to draw it: its location registered
    and visible, its company name coloured, both coordinates usable. *)
Definition row_ready (cdf : sheet company_row) (colors : list (pyval * string)) (s : session)
    (row : company_row) : Prop :=
  Dict.get py_eqb (competitor_visibility s) (location cdf row) = Some true /\
  (exists color, Dict.get py_eqb colors (company_name cdf row) = Some color) /\
  coord_ok (c_lat row) = true /\ coord_ok (c_lon row) = true.

Lemma competitor_body_ok net cl seconds cdf colors row color w :
  Dict.get py_eqb (competitor_visibility (sess w)) (location cdf row) = Some true ->
  Dict.get py_eqb colors (company_name cdf row) = Some color ->
  coord_ok (c_lat row) = true -> coord_ok (c_lon row) = true ->
  let k := row_key seconds row in
  (In k (map fst (cache w)) \/ exists iso, net cl k = inl iso) ->
  let fresh := if mem_key k (map fst (cache w)) then [] else [k] in
  exists iso, competitor_body net cl seconds cdf colors row w =
    (inl tt, World (cache w ++ map (fun k => (k, iso)) fresh) (sess w)
                   (trace w ++ map (NetCall cl) fresh ++
                    [CompanyLayer (location cdf row) color iso; Sleep 1])).
Proof.
  intros Hv Hc Hla Hlo k Hs fresh.
  destruct (get_isochrone_ok net cl (c_lon row) (c_lat row) seconds w Hs) as [iso Hg].
  exists iso. unfold competitor_body, bind at 1, get_sess. cbv beta zeta. rewrite Hv.
  rewrite (bind_inl _ _ _ _ _ Hg). simpl. rewrite Hc.
  rewrite (bind_inl _ _ _ _ _ (validate_location_ok _ _ _ Hla Hlo)).
  unfold bind, emit. simpl. rewrite <- !app_assoc. reflexivity.
Qed.

Lemma competitor_loop_ok net cl seconds cdf colors rs w :
  (forall row, In row rs -> row_ready cdf colors (sess w) row) ->
  served net cl (cache w) (map (row_key seconds) rs) ->
  exists c' new,
    for_each rs (competitor_body net cl seconds cdf colors) w =
      (inl tt, World c' (sess w) (trace w ++ new)) /\
    map fst c' = map fst (cache w) ++ calls new /\
    calls new = new_keys (map fst (cache w)) (map (row_key seconds) rs) /\
    sleeps new = length rs /\
    company_layers new = map (location cdf) rs.
Proof.
  revert w. induction rs as [|row rs IH]; intros w Hrows Hs.
  - exists (cache w), []. simpl. rewrite app_nil_r. destruct w; repeat split.
    rewrite app_nil_r; reflexivity.
  - rewrite for_each_cons.
    destruct (Hrows row (or_introl eq_refl)) as [Hv [[color Hcol] [Hla Hlo]]].
    destruct (competitor_body_ok net cl seconds cdf colors row color w Hv Hcol Hla Hlo)
      as [iso Hb]; [apply Hs; left; reflexivity|].
    cbv zeta in Hb. rewrite Hb.
    set (k := row_key seconds row) in *.
    set (fresh := if mem_key k (map fst (cache w)) then [] else [k]) in *.
    set (w1 := World (cache w ++ map (fun k => (k, iso)) fresh) (sess w)
                 (trace w ++ map (NetCall cl) fresh ++
                  [CompanyLayer (location cdf row) color iso; Sleep 1])).
    assert (Hs1 : served net cl (cache w1) (map (row_key seconds) rs)).
    { apply (served_grow net cl (cache w)).
      - intros k' Hk'. apply Hs. right. exact Hk'.
      - intros k' Hk'. unfold w1. simpl. rewrite map_fst_fresh, in_app_iff. left. exact Hk'. }
    assert (Hr1 : forall r, In r rs -> row_ready cdf colors (sess w1) r)
      by (intros r Hr; apply Hrows; right; exact Hr).
    destruct (IH w1 Hr1 Hs1) as [c' [new [Hrun [Hc [Hcalls [Hsl Hly]]]]]].
    exists c', (map (NetCall cl) fresh ++ [CompanyLayer (location cdf row) color iso; Sleep 1] ++ new).
    rewrite Hrun. unfold w1 in *. simpl in Hc, Hcalls |- *.
    rewrite map_fst_fresh in Hc, Hcalls.
    rewrite <- !app_assoc. simpl.
    rewrite !calls_app, !sleeps_app, !company_layers_app, calls_netcalls,
      sleeps_netcalls, layers_netcalls. simpl.
    fold k. unfold fresh in *.
    destruct (mem_key k (map fst (cache w))); simpl;
      rewrite ?app_nil_r in *; repeat split; try assumption.
    all: first [ rewrite Hsl; reflexivity
               | rewrite Hly; reflexivity
               | rewrite Hc, <- app_assoc; reflexivity
               | rewrite Hcalls; reflexivity ].
Qed.

Lemma competitor_body_needs net cl seconds cdf colors row w w1 :
  all_visible (sess w) ->
  competitor_body net cl seconds cdf colors row w = (inl tt, w1) ->
  row_ready cdf colors (sess w) row /\
  (In (row_key seconds row) (map fst (cache w)) \/
   exists iso, net cl (row_key seconds row) = inl iso).
Proof.
  intros Hvis B. unfold competitor_body in B.
  apply bind_cases in B as [[s [w0 [G B]]]|[h [_ Hh]]]; [|discriminate Hh].
  unfold get_sess in G. inversion G; subst s w0. clear G. cbv zeta in B.
  destruct (Dict.get py_eqb (competitor_visibility (sess w)) (location cdf row))
    as [[]|] eqn:V; [| |discriminate B].
  2:{ exfalso. exact (Bool.diff_false_true (Hvis _ _ V)). }
  apply bind_cases in B as [[iso [w2 [G B]]]|[h [_ Hh]]]; [|discriminate Hh].
  destruct (Dict.get py_eqb colors (company_name cdf row)) as [color|] eqn:C; [|discriminate B].
  apply bind_cases in B as [[u [w3 [Hval _]]]|[h [_ Hh]]]; [|discriminate Hh].
  apply validate_location_inl in Hval as [H1 [H2 _]].
  split; [split; [exact V|]; split; [eauto | auto]|].
  exact (get_isochrone_inl _ _ _ _ _ _ _ _ G).
Qed.

Lemma competitor_loop_needs net cl seconds cdf colors rs w w' :
  all_visible (sess w) ->
  for_each rs (competitor_body net cl seconds cdf colors) w = (inl tt, w') ->
  (forall row, In row rs -> row_ready cdf colors (sess w) row) /\
  served net cl (cache w) (map (row_key seconds) rs).
Proof.
  revert w. induction rs as [|row rs IH]; intros w Hvis.
  - intros _. split; [intros r []| intros k []].
  - rewrite for_each_cons.
    destruct (competitor_body net cl seconds cdf colors row w) as [[[]|h] w1] eqn:B;
      [|discriminate].
    intros H.
    pose proof (keeps_result _ _ _ _ _ (competitor_body_sess net cl seconds cdf colors row) B)
      as Hs1. unfold sess_same in Hs1.
    pose proof (keeps_result _ _ _ _ _ (competitor_body_answered net cl seconds cdf colors row) B)
      as Ha.
    destruct (IH w1 ltac:(rewrite Hs1; exact Hvis) H) as [Hr Hs].
    destruct (competitor_body_needs _ _ _ _ _ _ _ _ Hvis B) as [Hready Hk].
    split.
    + intros r [<-|Hr']; [exact Hready|]. rewrite <- Hs1. exact (Hr r Hr').
    + intros k [<-|Hk']; [exact Hk|]. exact (served_back _ _ _ _ _ Ha Hs k Hk').
Qed.

(** ** The map centre (lines 96-97) *)

(** Both means are numbers: [folium.Map] accepts the centre. *)
Definition centre_ok (cdf : sheet company_row) : bool :=
  match column_mean (map c_lat (rows cdf)), column_mean (map c_lon (rows cdf)) with
  | MeanNumber, MeanNumber => true
  | _, _ => false
  end.

Lemma map_init_ok cdf w : centre_ok cdf = true -> map_init cdf w = (inl tt, w).
Proof.
  unfold centre_ok, map_init.
  destruct (column_mean (map c_lat (rows cdf))), (column_mean (map c_lon (rows cdf)));
    try discriminate; reflexivity.
Qed.

Lemma map_init_inl cdf w r w' : map_init cdf w = (inl r, w') -> centre_ok cdf = true /\ w' = w.
Proof.
  unfold centre_ok, map_init.
  destruct (column_mean (map c_lat (rows cdf))), (column_mean (map c_lon (rows cdf)));
    intros H; inversion H; auto.
Qed.


(** ** Runs that reach the map *)

(** The rows of the "Companies" sheet that lines 126-143 can draw: no
    fresh NaN as location or company name, usable coordinates. *)
Definition rows_drawable (cdf : sheet company_row) : Prop :=
  forall row, In row (rows cdf) ->
    location cdf row <> PNaN false /\ company_name cdf row <> PNaN false /\
    coord_ok (c_lat row) = true /\ coord_ok (c_lon row) = true.

Lemma project_isochrones_eq net cl seconds w :
  project_isochrones net cl seconds w =
  for_each (project_sites (sess w)) (project_body net cl seconds) w.
Proof. reflexivity. Qed.

Lemma loaded_sites inp cdf pdf k s :
  project_sites (loaded_session inp cdf pdf (with_key k s)) =
  update_sites (checkbox inp) (init_sites (project_sites s) pdf).
Proof. unfold loaded_session. simpl. rewrite (proj1 (proj2 (with_key_fields k s))). reflexivity. Qed.

Lemma run_success net inp w cdf pdf :
  all_visible (sess w) ->
  (api_key_input inp <> EmptyString \/ api_key (sess w) <> EmptyString) ->
  uploaded_file inp = Some (Workbook (Some cdf) (Some pdf)) ->
  first_missing companies_required (columns cdf) = None ->
  first_missing projects_required (columns pdf) = None ->
  centre_ok cdf = true -> rows_drawable cdf ->
  let s1 := with_key (api_key_input inp) (sess w) in
  let seconds := minutes inp * 60 in
  let sites := update_sites (checkbox inp) (init_sites (project_sites (sess w)) pdf) in
  let ks := visible_keys seconds sites ++ map (row_key seconds) (rows cdf) in
  sites_drawable sites ->
  served net (Client (api_key s1)) (cache w) ks ->
  exists c' new,
    run net inp w = (inl tt, World c' (loaded_session inp cdf pdf s1) (trace w ++ new)) /\
    map fst c' = map fst (cache w) ++ calls new /\
    calls new = new_keys (map fst (cache w)) ks /\
    sleeps new = length ks /\
    company_layers new = map (location cdf) (rows cdf).
Proof.
  intros Hvis Hk Hf Hc Hp Hcentre Hrows s1 seconds sites ks Hd Hs.
  rewrite (run_render net _ _ _ _ _ _ (setup_loaded inp w cdf pdf Hk Hf Hc Hp)), render_init.
  fold s1. cbn [cache sess trace]. change (minutes inp * 60) with seconds.
  rewrite (bind_inl _ _ _ _ _ (map_init_ok cdf _ Hcentre)).
  set (w4 := World (cache w) (loaded_session inp cdf pdf s1) (trace w)).
  set (cl := Client (api_key s1)).
  assert (Hsites : project_sites (sess w4) = sites) by apply loaded_sites.
  destruct (project_loop_ok net cl seconds (project_sites (sess w4)) w4)
    as [c1 [new1 [Hr1 [Hc1 [Hcalls1 [Hsl1 Hly1]]]]]].
  { rewrite Hsites. exact Hd. }
  { rewrite Hsites. intros k Hk'. apply Hs. unfold ks. apply in_app_iff. left. exact Hk'. }
  rewrite <- project_isochrones_eq in Hr1. rewrite (bind_inl _ _ _ _ _ Hr1).
  set (colors := company_colors (series_unique (map (company_name cdf) (rows cdf)))).
  destruct (competitor_loop_ok net cl seconds cdf colors (rows cdf)
              (World c1 (sess w4) (trace w4 ++ new1)))
    as [c2 [new2 [Hr2 [Hc2 [Hcalls2 [Hsl2 Hly2]]]]]].
  { intros row Hrow. destruct (Hrows row Hrow) as [Hl [Hn [Hla Hlo]]].
    split; [|split; [|split; assumption]].
    - simpl. unfold loaded_session. simpl.
      destruct (register_all_found (map (location cdf) (rows cdf)) (competitor_visibility s1)
                  (all_competitors s1) (location cdf row)) as [b Hb];
        [apply in_map; exact Hrow | exact Hl |].
      rewrite Hb. f_equal.
      apply (register_all_vis _ _ _ (with_key_vis _ _ Hvis) _ _ Hb).
    - destruct (company_colors_lookup (map (company_name cdf) (rows cdf)) (company_name cdf row))
        as [j [_ Hj]]; [apply company_name_uniform | apply in_map; exact Hrow | exact Hn |].
      exists (color_of j). exact Hj. }
  { apply (served_grow net cl (cache w)).
    - intros k Hk'. apply Hs. unfold ks. apply in_app_iff. right. exact Hk'.
    - intros k Hk'. simpl. rewrite Hc1, in_app_iff. left. exact Hk'. }
  unfold competitor_isochrones. rewrite (bind_inl _ _ _ _ _ Hr2).
  exists c2, (new1 ++ new2 ++ [MapShown; Legend colors]).
  simpl in Hc2, Hcalls2 |- *. split.
  { unfold bind, emit. simpl. rewrite <- !app_assoc. reflexivity. }
  rewrite !calls_app, !sleeps_app, !company_layers_app. simpl.
  rewrite !app_nil_r, Nat.add_0_r.
  unfold ks. rewrite new_keys_app, length_app.
  rewrite Hsites in Hcalls1, Hsl1.
  repeat split.
  - rewrite Hc2, Hc1, <- app_assoc. reflexivity.
  - rewrite Hcalls2, Hc1, Hcalls1. reflexivity.
  - rewrite Hsl1, Hsl2, length_map. reflexivity.
  - rewrite Hly1, Hly2. reflexivity.
Qed.

(** A run that reaches its end went through every step of lines 65-170. *)
Lemma run_completed net inp w :
  fst (run net inp w) = inl tt ->
  exists cdf pdf,
    uploaded_file inp = Some (Workbook (Some cdf) (Some pdf)) /\
    (api_key_input inp <> EmptyString \/ api_key (sess w) <> EmptyString) /\
    first_missing companies_required (columns cdf) = None /\
    first_missing projects_required (columns pdf) = None /\
    centre_ok cdf = true /\
    let s1 := with_key (api_key_input inp) (sess w) in
    let cl := Client (api_key s1) in
    let seconds := minutes inp * 60 in
    let colors := company_colors (series_unique (map (company_name cdf) (rows cdf))) in
    exists w5 w6,
      project_isochrones net cl seconds
        (World (cache w) (loaded_session inp cdf pdf s1) (trace w)) = (inl tt, w5) /\
      competitor_isochrones net cl seconds cdf colors w5 = (inl tt, w6) /\
      snd (run net inp w) = World (cache w6) (sess w6) (trace w6 ++ [MapShown; Legend colors]).
Proof.
  intros H.
  destruct (setup_outcome inp w) as [[e [_ E]]|[cdf [pdf [E [Hk [Hf [Hc Hp]]]]]]].
  { rewrite (run_setup_halt net _ _ _ _ E) in H. discriminate. }
  exists cdf, pdf. split; [exact Hf|]. split; [exact (with_key_entered_inv _ _ Hk)|].
  split; [exact Hc|]. split; [exact Hp|].
  rewrite (run_render net _ _ _ _ _ _ E), render_init in H |- *.
  cbn [cache sess trace] in H |- *.
  destruct (map_init cdf (World (cache w) (loaded_session inp cdf pdf
             (with_key (api_key_input inp) (sess w))) (trace w))) as [[[]|h] w3] eqn:M.
  2:{ rewrite (bind_inr _ _ _ _ _ M) in H. discriminate. }
  apply map_init_inl in M as Mc. destruct Mc as [Hcentre ->]. split; [exact Hcentre|].
  cbv zeta. rewrite (bind_inl _ _ _ _ _ M) in H |- *.
  match goal with
  | H : fst (bind (project_isochrones ?n ?c ?s) _ ?w0) = _ |- _ =>
      destruct (project_isochrones n c s w0) as [[[]|h] w5] eqn:E5
  end.
  2:{ rewrite (bind_inr _ _ _ _ _ E5) in H. discriminate. }
  rewrite (bind_inl _ _ _ _ _ E5) in H |- *.
  match goal with
  | H : fst (bind (competitor_isochrones ?n ?c ?s ?d ?col) _ w5) = _ |- _ =>
      destruct (competitor_isochrones n c s d col w5) as [[[]|h] w6] eqn:E6
  end.
  2:{ rewrite (bind_inr _ _ _ _ _ E6) in H. discriminate. }
  rewrite (bind_inl _ _ _ _ _ E6) in H |- *.
  exists w5, w6. split; [first [reflexivity | exact E5]|]. split; [first [reflexivity | exact E6]|].
  unfold bind, emit. simpl. rewrite <- app_assoc. reflexivity.
Qed.

(** What a completed run tells about the file and the provider. *)
Lemma run_complete net inp w :
  all_visible (sess w) -> fst (run net inp w) = inl tt ->
  exists cdf pdf,
    uploaded_file inp = Some (Workbook (Some cdf) (Some pdf)) /\
    (api_key_input inp <> EmptyString \/ api_key (sess w) <> EmptyString) /\
    first_missing companies_required (columns cdf) = None /\
    first_missing projects_required (columns pdf) = None /\
    centre_ok cdf = true /\ rows_drawable cdf /\
    let s1 := with_key (api_key_input inp) (sess w) in
    let seconds := minutes inp * 60 in
    let sites := update_sites (checkbox inp) (init_sites (project_sites (sess w)) pdf) in
    sites_drawable sites /\
    served net (Client (api_key s1)) (cache w)
      (visible_keys seconds sites ++ map (row_key seconds) (rows cdf)).
Proof.
  intros Hvis H.
  destruct (run_completed net inp w H) as [cdf [pdf [Hf [Hk [Hc [Hp [Hcentre Hr]]]]]]].
  exists cdf, pdf. do 5 (split; [assumption|]).
  cbv zeta in Hr |- *. destruct Hr as [w5 [w6 [E5 [E6 _]]]].
  rewrite project_isochrones_eq in E5. cbn [sess] in E5. rewrite loaded_sites in E5.
  destruct (project_loop_needs _ _ _ _ _ _ E5) as [Hd Hs1].
  pose proof (keeps_result _ _ _ _ _ (project_loop_sess _ _ _ _) E5) as S5.
  pose proof (keeps_result _ _ _ _ _ (project_loop_answered _ _ _ _) E5) as A5.
  unfold sess_same in S5. simpl in S5.
  unfold competitor_isochrones in E6.
  destruct (competitor_loop_needs _ _ _ _ _ _ _ _
              ltac:(rewrite S5; apply loaded_session_vis, with_key_vis, Hvis) E6) as [Hready Hs2].
  split; [|split; [exact Hd|]].
  - intros row Hrow. destruct (Hready row Hrow) as [Hv [[color Hcol] [Hla Hlo]]].
    split; [|split; [|split; assumption]].
    + intros Hfresh. rewrite Hfresh, dict_get_fresh in Hv. discriminate.
    + intros Hfresh. rewrite Hfresh, dict_get_fresh in Hcol. discriminate.
  - intros k Hk'. apply in_app_iff in Hk' as [Hk'|Hk']; [exact (Hs1 k Hk')|].
    exact (served_back _ _ _ _ _ A5 Hs2 k Hk').
Qed.

(** ** Cache hits *)

Lemma get_isochrone_stores net cl lon lat seconds w iso :
  fst (get_isochrone net cl lon lat seconds w) = inl iso ->
  Dict.get key_eqb (cache (snd (get_isochrone net cl lon lat seconds w))) (lon, lat, seconds)
  = Some iso.
Proof.
  unfold get_isochrone. cbv beta zeta.
  destruct (Dict.get key_eqb (cache w) (lon, lat, seconds)) eqn:E.
  - simpl. intros H. inversion H; subst. exact E.
  - destruct (net cl (lon, lat, seconds)) eqn:N; simpl; intros H; [|discriminate].
    inversion H; subst. apply Dict.get_set_eq, key_eqb_refl.
Qed.

Lemma get_isochrone_hit net cl lon lat seconds w iso :
  Dict.get key_eqb (cache w) (lon, lat, seconds) = Some iso ->
  get_isochrone net cl lon lat seconds w = (inl iso, w).
Proof. intros H. unfold get_isochrone. cbv beta zeta. rewrite H. reflexivity. Qed.

(** Worlds that come after [w] in the process: any calls of
    [get_isochrone] (from this session or another, with any client), any
    runs, and other sessions, which start with their own session state and
    trace but share the process-wide cache. *)
Inductive later : world -> world -> Prop :=
| later_refl w : later w w
| later_fetch w w' net cl lon lat seconds :
    later w w' -> later w (snd (get_isochrone net cl lon lat seconds w'))
| later_run w w' net inp : later w w' -> later w (snd (run net inp w'))
| later_session w w' s tr : later w w' -> later w (World (cache w') s tr).

Lemma later_cache_grows w w' : later w w' -> cache_grows w w'.
Proof.
  induction 1 as [w|w w' net cl lon lat seconds _ IH|w w' net inp _ IH|w w' s tr _ IH].
  - apply cache_grows_refl.
  - exact (cache_grows_trans _ _ _ IH (get_isochrone_cache_grows net cl lon lat seconds w')).
  - exact (cache_grows_trans _ _ _ IH (run_cache_grows net inp w')).
  - intros k iso H. exact (IH k iso H).
Qed.

(** ** Re-running a completed run *)




Lemma loaded_session_api_key inp cdf pdf s : api_key (loaded_session inp cdf pdf s) = api_key s.
Proof. reflexivity. Qed.

(** The session a completed run leaves, and its trace. *)
Lemma run_completed_eq net inp w cdf pdf :
  all_visible (sess w) ->
  uploaded_file inp = Some (Workbook (Some cdf) (Some pdf)) ->
  fst (run net inp w) = inl tt ->
  let s1 := with_key (api_key_input inp) (sess w) in
  let seconds := minutes inp * 60 in
  let sites := update_sites (checkbox inp) (init_sites (project_sites (sess w)) pdf) in
  let ks := visible_keys seconds sites ++ map (row_key seconds) (rows cdf) in
  (api_key_input inp <> EmptyString \/ api_key (sess w) <> EmptyString) /\
  first_missing companies_required (columns cdf) = None /\
  first_missing projects_required (columns pdf) = None /\
  centre_ok cdf = true /\ rows_drawable cdf /\ sites_drawable sites /\
  exists c' new,
    run net inp w = (inl tt, World c' (loaded_session inp cdf pdf s1) (trace w ++ new)) /\
    map fst c' = map fst (cache w) ++ calls new /\
    calls new = new_keys (map fst (cache w)) ks /\
    sleeps new = length ks /\
    company_layers new = map (location cdf) (rows cdf).
Proof.
  intros Hvis Hf Hdone s1 seconds sites ks.
  destruct (run_complete net inp w Hvis Hdone)
    as [cdf' [pdf' [Hf' [Hk [Hc [Hp [Hcentre [Hrows [Hd Hs]]]]]]]]].
  rewrite Hf in Hf'. inversion Hf'; subst cdf' pdf'. clear Hf'.
  do 6 (split; [assumption|]).
  exact (run_success net inp w cdf pdf Hvis Hk Hf Hc Hp Hcentre Hrows Hd Hs).
Qed.

(** ** A failed provider call ends the run *)

Section FailFast.
Variable net : network.

(** Whatever [c] adds to the trace, a network call in it that the
    provider answered with an error is the last event, and [c] ends with
    that error. *)
Definition fail_fast {A} (c : M A) : Prop :=
  forall w, exists new, trace (snd (c w)) = trace w ++ new /\
    forall pre cl k post e, new = pre ++ NetCall cl k :: post -> net cl k = inr e ->
      post = [] /\ fst (c w) = inr (Crashed e).

Lemma ff_silent {A} (c : M A) :
  (forall w, trace (snd (c w)) = trace w) -> fail_fast c.
Proof.
  intros H w. exists []. split; [rewrite H, app_nil_r; reflexivity|].
  intros pre cl k post e Heq. destruct pre; discriminate.
Qed.

Lemma ff_emit e : (forall cl k, e <> NetCall cl k) -> fail_fast (emit e).
Proof.
  intros He w. exists [e]. split; [reflexivity|].
  intros pre cl k post e' Heq. exfalso.
  destruct pre as [|x pre]; simpl in Heq; inversion Heq; subst.
  - exact (He cl k eq_refl).
  - destruct pre; discriminate.
Qed.

Lemma ff_get_isochrone cl lon lat seconds : fail_fast (get_isochrone net cl lon lat seconds).
Proof.
  intros w. unfold get_isochrone. cbv beta zeta.
  destruct (Dict.get key_eqb (cache w) (lon, lat, seconds)).
  - exists []. split; [rewrite app_nil_r; reflexivity|].
    intros pre cl' k post e Heq. destruct pre; discriminate.
  - exists [NetCall cl (lon, lat, seconds)].
    destruct (net cl (lon, lat, seconds)) as [iso|err] eqn:N; (split; [reflexivity|]);
      intros pre cl' k post e Heq He;
      (destruct pre as [|x pre]; simpl in Heq; inversion Heq; subst;
       [|destruct pre; discriminate]).
    + congruence.
    + split; [reflexivity|]. rewrite He in N. inversion N; subst. reflexivity.
Qed.

Lemma ff_bind {A B} (c : M A) (f : A -> M B) :
  fail_fast c -> (forall a, fail_fast (f a)) -> fail_fast (bind c f).
Proof.
  intros Hc Hf w. destruct (Hc w) as [new1 [Ht1 H1]]. unfold bind.
  destruct (c w) as [[a|h] w1] eqn:E; simpl in Ht1, H1.
  - destruct (Hf a w1) as [new2 [Ht2 H2]]. exists (new1 ++ new2).
    split; [rewrite Ht2, Ht1, app_assoc; reflexivity|].
    intros pre cl k post e Heq He. symmetry in Heq.
    apply app_eq_app in Heq as [l [[_ Hn2]|[Hn1 Hn2]]].
    + exact (H2 l cl k post e Hn2 He).
    + destruct l as [|x l].
      * simpl in Hn2. exact (H2 [] cl k post e (eq_sym Hn2) He).
      * simpl in Hn2. inversion Hn2; subst.
        destruct (H1 pre cl k l e eq_refl He) as [_ Hbad]. discriminate.
  - exists new1. split; [exact Ht1|].
    intros pre cl k post e Hq He. destruct (H1 pre cl k post e Hq He) as [Hp Hh].
    split; [exact Hp|]. simpl. inversion Hh. reflexivity.
Qed.

Lemma ff_for_each {A} (l : list A) (body : A -> M unit) :
  (forall x, fail_fast (body x)) -> fail_fast (for_each l body).
Proof.
  intros Hb. induction l as [|x l IH]; simpl.
  - apply ff_silent. reflexivity.
  - apply ff_bind; [apply Hb | intros _; exact IH].
Qed.
End FailFast.

Ltac ff_step :=
  match goal with
  | |- fail_fast _ (bind _ _) => apply ff_bind; [|intro]
  | |- fail_fast _ (ret _) => apply ff_silent; reflexivity
  | |- fail_fast _ stop => apply ff_silent; reflexivity
  | |- fail_fast _ (crash _) => apply ff_silent; reflexivity
  | |- fail_fast _ get_sess => apply ff_silent; reflexivity
  | |- fail_fast _ (put_sess _) => apply ff_silent; reflexivity
  | |- fail_fast _ (emit _) => apply ff_emit; intros ? ?; discriminate
  | |- fail_fast _ (get_isochrone _ _ _ _ _) => apply ff_get_isochrone
  | |- fail_fast _ (for_each _ _) => apply ff_for_each; intro
  | |- fail_fast _ (match ?x with _ => _ end) => destruct x
  | |- fail_fast _ (let '(_, _) := ?x in _) => destruct x
  | |- fail_fast _ (if ?b then _ else _) => destruct b
  end.

Lemma run_fail_fast net inp : fail_fast net (run net inp).
Proof.
  unfold run, setup, store_api_key, make_client, load, init_project_sites,
    init_competitors, register_competitor, update_project_visibility, map_init,
    project_isochrones, competitor_isochrones, project_body, competitor_body,
    validate_location, check_coord.
  repeat ff_step.
Qed.

(** ** Project sites after the first load *)

Lemma update_sites_coords cb ps :
  map (fun '(n, p) => (n, lat p, lon p)) (update_sites cb ps) =
  map (fun '(n, p) => (n, lat p, lon p)) ps.
Proof. induction ps as [|[n p] ps IH]; simpl; congruence. Qed.

Lemma update_sites_untouched cb ps :
  (forall n v, cb n v = v) -> update_sites cb ps = ps.
Proof.
  intros H. induction ps as [|[n [la lo v]] ps IH]; [reflexivity|].
  simpl. rewrite H, IH. reflexivity.
Qed.

Lemma run_project_sites net inp w :
  project_sites (sess w) <> [] ->
  let ps' := project_sites (sess (snd (run net inp w))) in
  ps' = project_sites (sess w) \/ ps' = update_sites (checkbox inp) (project_sites (sess w)).
Proof.
  intros Hne ps'. unfold ps'. clear ps'.
  destruct (setup_outcome inp w) as [[e [_ E]]|[cdf [pdf [E [Hk [Hf [Hc Hp]]]]]]].
  - left. rewrite (run_setup_halt net _ _ _ _ E). simpl.
    apply with_key_fields.
  - right. rewrite (run_loaded_session net inp w cdf pdf (with_key_entered_inv _ _ Hk) Hf Hc Hp).
    rewrite loaded_sites. unfold init_sites.
    destruct (project_sites (sess w)); [contradiction | reflexivity].
Qed.

(** ** Claims *)

(** Claim C1: [get_isochrone] caches by the exact triple (longitude,
    latitude, seconds).  A cached triple is answered from the cache with no
    network call and no change to the world; after a successful call the
    same triple is a hit (whatever client object is passed); a call with
    another duration leaves the first entry in place and adds its own; and
    no run of the script ever removes or alters an entry, so entries live as
    long as the process. *)
Theorem get_isochrone_cache_by_triple net cl cl' lon lat seconds seconds' w :
  (forall iso, Dict.get key_eqb (cache w) (lon, lat, seconds) = Some iso ->
     get_isochrone net cl lon lat seconds w = (inl iso, w)) /\
  (forall iso, fst (get_isochrone net cl lon lat seconds w) = inl iso ->
     let w1 := snd (get_isochrone net cl lon lat seconds w) in
     get_isochrone net cl' lon lat seconds w1 = (inl iso, w1) /\
     (forall iso', seconds' <> seconds ->
        fst (get_isochrone net cl lon lat seconds' w1) = inl iso' ->
        let w2 := snd (get_isochrone net cl lon lat seconds' w1) in
        Dict.get key_eqb (cache w2) (lon, lat, seconds) = Some iso /\
        Dict.get key_eqb (cache w2) (lon, lat, seconds') = Some iso')) /\
  (forall net' inp k iso, Dict.get key_eqb (cache w) k = Some iso ->
     Dict.get key_eqb (cache (snd (run net' inp w))) k = Some iso).
Proof.
  split; [|split].
  - apply get_isochrone_hit.
  - intros iso Hiso w1.
    assert (H1 : Dict.get key_eqb (cache w1) (lon, lat, seconds) = Some iso)
      by (apply get_isochrone_stores; exact Hiso).
    split; [apply get_isochrone_hit; exact H1|].
    intros iso' Hne Hiso' w2. split.
    + apply (get_isochrone_cache_grows net cl lon lat seconds' w1). exact H1.
    + apply get_isochrone_stores. exact Hiso'.
  - intros net' inp k iso H. exact (run_cache_grows net' inp w k iso H).
Qed.

Definition c1_world : world := World [((flt 1, flt 2, 600), "poly")] empty_session [].

Lemma get_isochrone_cache_by_triple_witness :
  Dict.get key_eqb (cache c1_world) (flt 1, flt 2, 600) = Some "poly" /\
  get_isochrone ex_net (Client "k") (flt 1) (flt 2) 600 c1_world = (inl "poly", c1_world).
Proof.
  split; [reflexivity|].
  apply (proj1 (get_isochrone_cache_by_triple ex_net (Client "k") (Client "k") (flt 1) (flt 2)
                  600 600 c1_world)).
  reflexivity.
Defined.

(** A provider whose answer tells which client asked. *)
Definition net_by_client : network := fun cl _ => inl (client_key cl).

(** Claim C3, counterexample: after a call with client "A", the same
    triple asked with client "B" is served from the cache, with "A"'s
    answer and no network call, so the two clients do not get distinct
    entries. *)
Lemma client_not_in_key_counterexample :
  let w1 := snd (get_isochrone net_by_client (Client "A") (flt 1) (flt 2) 600
                   (World [] empty_session [])) in
  get_isochrone net_by_client (Client "B") (flt 1) (flt 2) 600 w1 = (inl "A", w1) /\
  calls (trace w1) = [(flt 1, flt 2, 600)].
Proof. split; reflexivity. Qed.

(** Claim C3 (amended): the client argument is left out of the cache key.
    Once a triple has been fetched successfully through one client, every
    call with that triple in any later world of the process (after other
    calls, runs or sessions), through any client and whatever the provider
    would answer, returns the stored polygon without a network call and
    without changing the world. *)
Theorem client_not_in_cache_key net cl lon lat seconds w iso :
  fst (get_isochrone net cl lon lat seconds w) = inl iso ->
  forall w2, later (snd (get_isochrone net cl lon lat seconds w)) w2 ->
  forall net' cl', get_isochrone net' cl' lon lat seconds w2 = (inl iso, w2).
Proof.
  intros H w2 Hl net' cl'. apply get_isochrone_hit.
  apply (later_cache_grows _ _ Hl). apply get_isochrone_stores. exact H.
Qed.

Lemma client_not_in_cache_key_witness :
  let w0 := World [] empty_session [] in
  fst (get_isochrone net_by_client (Client "A") (flt 1) (flt 2) 600 w0) = inl "A" /\
  let w1 := snd (get_isochrone net_by_client (Client "A") (flt 1) (flt 2) 600 w0) in
  let w2 := World (cache w1) empty_session [] in
  get_isochrone ex_net (Client "B") (flt 1) (flt 2) 600 w2 = (inl "A", w2).
Proof.
  split; [reflexivity|].
  apply (client_not_in_cache_key net_by_client (Client "A") (flt 1) (flt 2) 600
           (World [] empty_session []) "A").
  - reflexivity.
  - apply later_session. apply later_refl.
Defined.

(** Claim C5, counterexample: a "Companies" sheet without 'Latitude' that
    also lacks 'Company Location' stops with a message naming 'Company
    Location', not the missing 'Latitude'. *)
Definition no_loc_no_lat : sheet company_row :=
  Sheet ["Longitude"; "Company Name"] [].
Definition no_loc_no_lat_inputs : inputs :=
  Inputs "k" 10 (Some (Workbook (Some no_loc_no_lat) (Some ex_projects))) (fun _ v => v).

Lemma missing_column_not_named_counterexample :
  ~ In "Latitude" (columns no_loc_no_lat) /\
  fst (run ex_net no_loc_no_lat_inputs (World [] empty_session [])) = inr Stopped /\
  trace (snd (run ex_net no_loc_no_lat_inputs (World [] empty_session []))) =
    [ErrorMsg "Error loading data: 'Companies' sheet must include 'Company Location' column."] /\
  trace (snd (run ex_net no_loc_no_lat_inputs (World [] empty_session []))) <>
    [ErrorMsg (load_error_msg (missing_column_msg "Companies" "Latitude"))].
Proof.
  split; [simpl; intuition discriminate|].
  split; [reflexivity|]. split; [reflexivity|]. vm_compute. discriminate.
Qed.

(** Claim C5 (amended): when the "Companies" or the "Projects" sheet lacks
    a required column, the run shows "Error loading data: '<sheet>' sheet
    must include '<c>' column." for the first missing column [c] in check
    order (all "Companies" columns are checked before the "Projects" ones)
    and stops there: the cache is untouched, the session only records the
    key, and nothing but that message is added to the trace, so no
    retrieval and no map. *)
Theorem run_missing_column_first net inp w cdf pdf :
  (api_key_input inp <> EmptyString \/ api_key (sess w) <> EmptyString) ->
  uploaded_file inp = Some (Workbook (Some cdf) (Some pdf)) ->
  (exists col, In col companies_required /\ ~ In col (columns cdf)) \/
  (exists col, In col projects_required /\ ~ In col (columns pdf)) ->
  exists sheet_name c,
    run net inp w =
      (inr Stopped,
       World (cache w) (with_key (api_key_input inp) (sess w))
         (trace w ++ [ErrorMsg (load_error_msg (missing_column_msg sheet_name c))])) /\
    ((sheet_name = "Companies" /\
      exists pre post, companies_required = pre ++ c :: post /\
        (forall c', In c' pre -> In c' (columns cdf)) /\ ~ In c (columns cdf)) \/
     (sheet_name = "Projects" /\
      (forall c', In c' companies_required -> In c' (columns cdf)) /\
      exists pre post, projects_required = pre ++ c :: post /\
        (forall c', In c' pre -> In c' (columns pdf)) /\ ~ In c (columns pdf))).
Proof.
  intros Hk Hf Hmiss.
  assert (Hsetup : forall sheet_name c,
    load (Workbook (Some cdf) (Some pdf)) (World (cache w) (with_key (api_key_input inp) (sess w))
                                                 (trace w)) =
    (inr Stopped, World (cache w) (with_key (api_key_input inp) (sess w))
       (trace w ++ [ErrorMsg (load_error_msg (missing_column_msg sheet_name c))])) ->
    run net inp w =
    (inr Stopped, World (cache w) (with_key (api_key_input inp) (sess w))
       (trace w ++ [ErrorMsg (load_error_msg (missing_column_msg sheet_name c))]))).
  { intros sheet_name c Hl. apply run_setup_halt.
    rewrite (setup_with_file inp w _ (with_key_entered _ _ Hk) Hf).
    rewrite (bind_inr _ _ _ _ _ Hl). reflexivity. }
  destruct (first_missing companies_required (columns cdf)) as [c|] eqn:Hc.
  - exists "Companies", c. split.
    + apply Hsetup. unfold load. rewrite Hc. reflexivity.
    + left. split; [reflexivity|]. exact (first_missing_first _ _ _ Hc).
  - destruct Hmiss as [[col [Hin Hout]]|[col [Hin Hout]]].
    { destruct (first_missing_some _ _ _ Hin Hout) as [c' Hc']. congruence. }
    destruct (first_missing_some _ _ _ Hin Hout) as [c Hp].
    exists "Projects", c. split.
    + apply Hsetup. unfold load. rewrite Hc, Hp. reflexivity.
    + right. split; [reflexivity|]. split; [exact (first_missing_none_inv _ _ Hc)|].
      exact (first_missing_first _ _ _ Hp).
Qed.

Definition c5_companies : sheet company_row :=
  Sheet ["Company Location"; "Longitude"; "Company Name"]
        [CompanyRow (txt "Acme HQ") (txt "Acme") (flt 40100000) (flt (-74100000))].
Definition c5_inputs : inputs :=
  Inputs "k" 10 (Some (Workbook (Some c5_companies) (Some ex_projects))) (fun _ v => v).

Lemma run_missing_column_first_witness :
  exists sheet_name c,
    run ex_net c5_inputs (World [] empty_session []) =
      (inr Stopped,
       World [] (with_key "k" empty_session)
         ([] ++ [ErrorMsg (load_error_msg (missing_column_msg sheet_name c))])) /\
    ((sheet_name = "Companies" /\
      exists pre post, companies_required = pre ++ c :: post /\
        (forall c', In c' pre -> In c' (columns c5_companies)) /\ ~ In c (columns c5_companies)) \/
     (sheet_name = "Projects" /\
      (forall c', In c' companies_required -> In c' (columns c5_companies)) /\
      exists pre post, projects_required = pre ++ c :: post /\
        (forall c', In c' pre -> In c' (columns ex_projects)) /\ ~ In c (columns ex_projects))).
Proof.
  apply (run_missing_column_first ex_net c5_inputs (World [] empty_session [])
           c5_companies ex_projects).
  - left. discriminate.
  - reflexivity.
  - left. exists "Latitude". split; [simpl; tauto|].
    simpl. intros H. repeat (destruct H as [H|H]; [discriminate H|]). exact H.
Defined.

(** Claim C6: with no key entered (empty text input and nothing stored in
    the session) the run shows the configuration warning and stops: no
    client is built, no network call is made, the cache and the session
    are untouched. *)
Theorem run_without_api_key net inp w :
  api_key_input inp = EmptyString -> api_key (sess w) = EmptyString ->
  run net inp w = (inr Stopped, World (cache w) (sess w) (trace w ++ [Warning no_key_warning])) /\
  calls (trace (snd (run net inp w))) = calls (trace w).
Proof.
  intros Hi Hs.
  assert (Hrun : run net inp w =
                 (inr Stopped, World (cache w) (sess w) (trace w ++ [Warning no_key_warning]))).
  { unfold run, setup, store_api_key, make_client, bind, get_sess, emit, stop.
    rewrite Hi. simpl. rewrite Hs. simpl. destruct w; reflexivity. }
  split; [exact Hrun|]. rewrite Hrun. simpl. rewrite calls_app. simpl. apply app_nil_r.
Qed.

Lemma run_without_api_key_witness :
  run ex_net (Inputs EmptyString 10 (Some (Workbook (Some ex_companies) (Some ex_projects)))
                     (fun _ v => v)) (World [] empty_session []) =
    (inr Stopped, World [] empty_session [Warning no_key_warning]) /\
  calls (trace (snd (run ex_net (Inputs EmptyString 10
                    (Some (Workbook (Some ex_companies) (Some ex_projects))) (fun _ v => v))
                    (World [] empty_session [])))) = [].
Proof.
  apply (run_without_api_key ex_net
           (Inputs EmptyString 10 (Some (Workbook (Some ex_companies) (Some ex_projects)))
                   (fun _ v => v)) (World [] empty_session [])); reflexivity.
Defined.

(** Claim C7: the group colors depend only on the order of the unique group
    names ([df['Company Name'].unique()]): the [i]-th unique name gets
    tab20 color [i mod 20] (always an entry of the palette), files with the
    same unique names in the same order get the same mapping, every row
    whose name can be looked up (anything but a NaN made afresh by
    [iterrows]) finds a color however many groups there are, and name
    [i + 20] reuses the color of name [i]. *)
Theorem company_colors_by_position (cdf cdf' : sheet company_row) :
  let names := series_unique (map (company_name cdf) (rows cdf)) in
  (forall i g, nth_error names i = Some g ->
     nth_error (company_colors names) i =
       Some (g, nth (Nat.modulo i colormap_N) tab20 EmptyString) /\
     In (nth (Nat.modulo i colormap_N) tab20 EmptyString) tab20 /\
     (g <> PNaN false ->
      Dict.get py_eqb (company_colors names) g =
        Some (nth (Nat.modulo i colormap_N) tab20 EmptyString))) /\
  (series_unique (map (company_name cdf') (rows cdf')) = names ->
   company_colors (series_unique (map (company_name cdf') (rows cdf'))) = company_colors names) /\
  (forall row, In row (rows cdf) -> company_name cdf row <> PNaN false ->
     exists color,
       Dict.get py_eqb (company_colors names) (company_name cdf row) = Some color /\
       In color tab20) /\
  (forall i, color_of (i + colormap_N) = color_of i).
Proof.
  intros names.
  assert (Hd : distinct_by py_eqb names)
    by (apply (distinct_by_weaken _ unique_eqb);
        [exact unique_eqb_of_py | apply series_unique_distinct]).
  split; [|split; [|split]].
  - intros i g Hi. split; [|split].
    + rewrite company_colors_eq by exact Hd. apply nth_error_enum_colors. exact Hi.
    + apply color_of_tab20.
    + intros Hg. rewrite company_colors_eq by exact Hd.
      exact (enum_colors_get names 0 i g g Hd Hi (py_eqb_refl g Hg)).
  - intros H. rewrite H. reflexivity.
  - intros row Hrow Hn.
    destruct (company_colors_lookup (map (company_name cdf) (rows cdf)) (company_name cdf row))
      as [j [_ Hj]]; [apply company_name_uniform | apply in_map; exact Hrow | exact Hn |].
    exists (color_of j). split; [exact Hj | apply color_of_tab20].
  - intros i. unfold color_of. f_equal.
    rewrite <- (Nat.mul_1_l colormap_N) at 1. rewrite Nat.Div0.mod_add. reflexivity.
Qed.

(** Twenty-one groups: the 21st reuses the first color. *)
Definition c7_companies : sheet company_row :=
  Sheet companies_required
    (map (fun n => CompanyRow (txt "loc") (txt (String (Ascii.ascii_of_nat (65 + n)) EmptyString))
                              (flt 0) (flt 0))
         (seq 0 21)%nat).

Example c7_reuse :
  Dict.get py_eqb (company_colors (series_unique (map (company_name c7_companies)
                                                     (rows c7_companies)))) (PStr "U") =
  Some "#1f77b4".
Proof. vm_compute. reflexivity. Qed.

Lemma company_colors_by_position_witness :
  nth_error (series_unique (map (company_name ex_companies) (rows ex_companies))) 0%nat =
    Some (PStr "Acme") /\
  Dict.get py_eqb (company_colors (series_unique (map (company_name ex_companies)
                                                     (rows ex_companies)))) (PStr "Acme") =
    Some (nth (Nat.modulo 0 colormap_N) tab20 EmptyString).
Proof.
  split; [reflexivity|].
  apply (proj1 (company_colors_by_position ex_companies ex_companies) 0%nat (PStr "Acme")).
  - reflexivity.
  - discriminate.
Defined.

Definition no_projects : sheet project_row := Sheet projects_required [].


(** The same place written as a Python int in one sheet and as a float in
    the other is two cache keys, so two network calls (Python has
    [40 == 40.0], but [st.cache_data] hashes the type too). *)
Definition int_projects : sheet project_row :=
  Sheet projects_required [ProjectRow "Site A" (Num "int" 40000000) (Num "int" (-74000000))].
Definition float_companies : sheet company_row :=
  Sheet companies_required
    [CompanyRow (txt "Acme HQ") (txt "Acme") (flt 40000000) (flt (-74000000))].
Definition int_float_inputs : inputs :=
  Inputs "k" 10 (Some (Workbook (Some float_companies) (Some int_projects))) (fun _ v => v).

Example int_float_two_calls :
  calls (trace (snd (run ex_net int_float_inputs (World [] empty_session [])))) =
  [(Num "int" (-74000000), Num "int" 40000000, 600); (flt (-74000000), flt 40000000, 600)].
Proof. vm_compute. reflexivity. Qed.



(** Claim C4, counterexample: running the spec's example twice, the second
    run is served from the cache (no network call) yet still sleeps twice,
    so delays do not match successful network calls. *)
Lemma sleeps_match_calls_counterexample :
  let w1 := snd (run ex_net ex_inputs (World [] empty_session [])) in
  let w2 := snd (run ex_net ex_inputs w1) in
  (length (calls (trace w2)) - length (calls (trace w1)) = 0)%nat /\
  (sleeps (trace w2) - sleeps (trace w1) = 2)%nat /\
  (sleeps (trace w2) - sleeps (trace w1))%nat <>
  (length (calls (trace w2)) - length (calls (trace w1)))%nat.
Proof. vm_compute. repeat split. discriminate. Qed.

(** A blank 'Company Name' in a float column: the row's polygon is fetched,
    then the color lookup fails with KeyError before the delay. *)
Definition blank_name_companies : sheet company_row :=
  Sheet companies_required
    [CompanyRow (txt "Acme HQ") (NaN "float") (flt 40100000) (flt (-74100000))].
Definition blank_name_inputs : inputs :=
  Inputs "k" 10 (Some (Workbook (Some blank_name_companies) (Some no_projects))) (fun _ v => v).

Example blank_name_fetch_without_delay :
  run ex_net blank_name_inputs (World [] empty_session []) =
  (inr (Crashed "KeyError"),
   World [((flt (-74100000), flt 40100000, 600), "poly")]
         (sess (snd (run ex_net blank_name_inputs (World [] empty_session []))))
         [NetCall (Client "k") (flt (-74100000), flt 40100000, 600)]).
Proof. vm_compute. reflexivity. Qed.

(** Claim C4 (amended): a run that completes sleeps once (one second)
    after each visible project and each company row it processes, whether
    the polygon came from the network or from the cache: M + N delays,
    while it makes at most M + N network calls, and none when every key it
    looks up is already cached.  The count is for runs that complete: a
    blank cell of a numeric 'Company Name' column fetches the row's polygon
    and then fails with KeyError before the delay, and a blank cell of a
    numeric 'Company Location' column fails with KeyError before the
    fetch. *)
Theorem run_sleeps_per_location net inp w cdf pdf :
  reachable w ->
  uploaded_file inp = Some (Workbook (Some cdf) (Some pdf)) ->
  fst (run net inp w) = inl tt ->
  let seconds := minutes inp * 60 in
  let w1 := snd (run net inp w) in
  let M := length (visible_keys seconds (project_sites (sess w1))) in
  let N := length (rows cdf) in
  let ks := visible_keys seconds (project_sites (sess w1)) ++ map (row_key seconds) (rows cdf) in
  exists new, trace w1 = trace w ++ new /\
    sleeps new = (M + N)%nat /\ (length (calls new) <= M + N)%nat /\
    ((forall k, In k ks -> In k (map fst (cache w))) -> calls new = []).
Proof.
  intros Hreach Hf Hdone seconds w1 M N ks.
  pose proof (reachable_all_visible w Hreach) as Hvis.
  destruct (run_completed_eq net inp w cdf pdf Hvis Hf Hdone)
    as [_ [_ [_ [_ [_ [_ [c' [new [Hrun [_ [Hcalls [Hsl _]]]]]]]]]]]].
  cbv zeta in Hcalls, Hsl.
  assert (Hw1 : w1 = World c' (loaded_session inp cdf pdf (with_key (api_key_input inp) (sess w)))
                           (trace w ++ new)) by (unfold w1; rewrite Hrun; reflexivity).
  assert (Hks : ks = visible_keys seconds (update_sites (checkbox inp)
                       (init_sites (project_sites (sess w)) pdf)) ++ map (row_key seconds) (rows cdf)).
  { unfold ks. rewrite Hw1. simpl sess. rewrite loaded_sites. reflexivity. }
  exists new. rewrite Hw1. split; [reflexivity|].
  assert (HMN : (M + N)%nat = length ks).
  { rewrite Hks. unfold M, N. rewrite Hw1. simpl sess. rewrite loaded_sites, length_app, length_map.
    reflexivity. }
  rewrite HMN. split; [rewrite Hks; exact Hsl|]. split.
  - rewrite Hcalls, Hks. apply new_keys_length.
  - intros Hall. rewrite Hcalls. apply new_keys_seen. intros k Hk. apply Hall.
    rewrite Hks. exact Hk.
Qed.

Lemma run_sleeps_per_location_witness :
  exists new, trace (snd (run ex_net ex_inputs (World [] empty_session []))) = [] ++ new /\
    sleeps new = 2%nat /\ (length (calls new) <= 2)%nat /\
    ((forall k, In k [(flt (-74000000), flt 40000000, 600); (flt (-74100000), flt 40100000, 600)] ->
        In k (map fst (cache (World [] empty_session [])))) -> calls new = []).
Proof.
  apply (run_sleeps_per_location ex_net ex_inputs (World [] empty_session [])
           ex_companies ex_projects).
  - apply reach_start.
  - reflexivity.
  - vm_compute. reflexivity.
Defined.

(** A float 'Company Location' column with a blank cell: the row's NaN is
    made afresh by [iterrows] and is not found in the visibility dict. *)
Definition blank_loc_companies : sheet company_row :=
  Sheet companies_required
    [CompanyRow (NaN "float") (txt "Acme") (flt 40100000) (flt (-74100000))].
Definition blank_loc_inputs : inputs :=
  Inputs "k" 10 (Some (Workbook (Some blank_loc_companies) (Some ex_projects))) (fun _ v => v).

(** Claim C9, counterexample: with that file the visibility entries are all
    [True], yet the run fails with KeyError at the company row and draws no
    company layer. *)
Lemma blank_location_not_rendered_counterexample :
  let w1 := snd (run ex_net blank_loc_inputs (World [] empty_session [])) in
  all_visible (sess w1) /\
  fst (run ex_net blank_loc_inputs (World [] empty_session [])) = inr (Crashed "KeyError") /\
  length (rows blank_loc_companies) = 1%nat /\
  company_layers (trace w1) = [].
Proof.
  intros w1. split.
  - apply reachable_all_visible. apply reach_run. apply reach_start.
  - vm_compute. repeat split; reflexivity.
Qed.

(** Claim C9 (amended): in every world a session can reach, every company
    visibility entry is [true] (entries are only ever created with
    [setdefault(..., True)] and nothing writes [False]).  A run that
    completes saw no location that the dict cannot find (no blank cell of a
    numeric 'Company Location' column) and drew one company layer per
    company row, in row order. *)
Theorem company_visibility_always_true net inp w cdf pdf :
  reachable w ->
  all_visible (sess w) /\
  (uploaded_file inp = Some (Workbook (Some cdf) (Some pdf)) ->
   fst (run net inp w) = inl tt ->
   (forall row, In row (rows cdf) -> location cdf row <> PNaN false) /\
   exists new, trace (snd (run net inp w)) = trace w ++ new /\
     company_layers new = map (location cdf) (rows cdf)).
Proof.
  intros Hreach. pose proof (reachable_all_visible w Hreach) as Hvis.
  split; [exact Hvis|]. intros Hf Hdone.
  destruct (run_completed_eq net inp w cdf pdf Hvis Hf Hdone)
    as [_ [_ [_ [_ [Hrows [_ [c' [new [Hrun [_ [_ [_ Hly]]]]]]]]]]]].
  split; [intros row Hrow; exact (proj1 (Hrows row Hrow))|].
  exists new. rewrite Hrun. split; [reflexivity | exact Hly].
Qed.

Lemma company_visibility_always_true_witness :
  all_visible (sess (World [] empty_session [])) /\
  exists new, trace (snd (run ex_net ex_inputs (World [] empty_session []))) = [] ++ new /\
    company_layers new = [PStr "Acme HQ"].
Proof.
  destruct (company_visibility_always_true ex_net ex_inputs (World [] empty_session [])
              ex_companies ex_projects (reach_start [])) as [H1 H2].
  split; [exact H1|].
  apply H2; [reflexivity | vm_compute; reflexivity].
Defined.

Definition net_fail : network := fun _ _ => inr "Quota exceeded".

(** Claim C8: a provider error on a cache miss ends [get_isochrone] with
    that error and leaves the cache as it was (only the attempted call is
    recorded); in a run, a network call the provider answers with an error
    is the last thing the run does and the run ends with that error (no
    later layer, delay or map); and every entry cached before the run is
    still there, unchanged, afterwards. *)
Theorem failed_call_halts_and_keeps_cache net inp w cl lon lat seconds e :
  (Dict.get key_eqb (cache w) (lon, lat, seconds) = None ->
   net cl (lon, lat, seconds) = inr e ->
   get_isochrone net cl lon lat seconds w =
     (inr (Crashed e), World (cache w) (sess w) (trace w ++ [NetCall cl (lon, lat, seconds)]))) /\
  (exists new, trace (snd (run net inp w)) = trace w ++ new /\
     forall pre cl' k post e', new = pre ++ NetCall cl' k :: post -> net cl' k = inr e' ->
       post = [] /\ fst (run net inp w) = inr (Crashed e')) /\
  (forall k iso, Dict.get key_eqb (cache w) k = Some iso ->
     Dict.get key_eqb (cache (snd (run net inp w))) k = Some iso).
Proof.
  split; [|split].
  - intros Hmiss Hnet. unfold get_isochrone. cbv beta zeta. rewrite Hmiss, Hnet. reflexivity.
  - exact (run_fail_fast net inp w).
  - exact (run_cache_grows net inp w).
Qed.

Lemma failed_call_halts_and_keeps_cache_witness :
  get_isochrone net_fail (Client "k") (flt 1) (flt 2) 900 c1_world =
    (inr (Crashed "Quota exceeded"),
     World (cache c1_world) (sess c1_world)
           (trace c1_world ++ [NetCall (Client "k") (flt 1, flt 2, 900)])).
Proof.
  apply (proj1 (failed_call_halts_and_keeps_cache net_fail ex_inputs c1_world (Client "k")
                  (flt 1) (flt 2) 900 "Quota exceeded")); reflexivity.
Defined.

(** Claim C10: once the session holds project sites, a later run never
    refills them from the uploaded file: the initialisation step leaves the
    world unchanged for any "Projects" sheet; after the whole run the
    sites keep their names, order and coordinates, their visibility flags
    change only through the checkboxes ([checkbox] applied to the stored
    flag, never the file), and with no checkbox toggled the sites are
    exactly as before. *)
Theorem project_sites_not_reloaded net inp w :
  project_sites (sess w) <> [] ->
  (forall pdf, init_project_sites pdf w = (inl tt, w)) /\
  let ps' := project_sites (sess (snd (run net inp w))) in
  (ps' = project_sites (sess w) \/ ps' = update_sites (checkbox inp) (project_sites (sess w))) /\
  map (fun '(n, p) => (n, lat p, lon p)) ps' =
    map (fun '(n, p) => (n, lat p, lon p)) (project_sites (sess w)) /\
  ((forall n v, checkbox inp n v = v) -> ps' = project_sites (sess w)).
Proof.
  intros Hne. split.
  - intros pdf. unfold init_project_sites, bind, get_sess.
    destruct (project_sites (sess w)); [contradiction | reflexivity].
  - intros ps'. pose proof (run_project_sites net inp w Hne) as H. fold ps' in H.
    split; [exact H|]. split.
    + destruct H as [H|H]; rewrite H; [reflexivity | apply update_sites_coords].
    + intros Hid. destruct H as [H|H]; rewrite H; [reflexivity|].
      apply update_sites_untouched. exact Hid.
Qed.

(** A session that loaded the example, then a file with another project. *)
Definition c10_projects : sheet project_row :=
  Sheet projects_required [ProjectRow "Site B" (flt 41000000) (flt (-75000000))].

Lemma project_sites_not_reloaded_witness :
  let w1 := snd (run ex_net ex_inputs (World [] empty_session [])) in
  let inp2 := Inputs "k" 10 (Some (Workbook (Some ex_companies) (Some c10_projects)))
                     (fun _ v => v) in
  project_sites (sess (snd (run ex_net inp2 w1))) = project_sites (sess w1).
Proof.
  intros w1 inp2.
  destruct (project_sites_not_reloaded ex_net inp2 w1) as [_ [_ [_ H]]].
  - vm_compute. discriminate.
  - apply H. intros n v. reflexivity.
Defined.


(** ** More of the script *)

(** *** Helpers *)

(** The API key a run leaves in the session. *)
Lemma run_api_key net inp w :
  api_key (sess (snd (run net inp w))) = api_key (with_key (api_key_input inp) (sess w)).
Proof.
  destruct (setup_outcome inp w) as [[e [_ E]]|[cdf [pdf [E [Hk [Hf [Hc Hp]]]]]]].
  - rewrite (run_setup_halt net _ _ _ _ E). reflexivity.
  - rewrite (run_loaded_session net inp w cdf pdf (with_key_entered_inv _ _ Hk) Hf Hc Hp).
    apply loaded_session_api_key.
Qed.

Lemma dict_get_absent {V} (d : list (string * V)) n :
  ~ In n (map fst d) -> Dict.get String.eqb d n = None.
Proof.
  induction d as [|[k v] d IH]; simpl; [reflexivity|]. intros H.
  destruct (String.eqb_spec k n) as [->|Hne]; [tauto|]. apply IH. tauto.
Qed.

Lemma unique_from_equiv s1 s2 l :
  (forall x, In x s1 <-> In x s2) -> unique_from s1 l = unique_from s2 l.
Proof.
  revert s1 s2. induction l as [|x l IH]; intros s1 s2 H; simpl; [reflexivity|].
  destruct (existsb (String.eqb x) s1) eqn:E1, (existsb (String.eqb x) s2) eqn:E2.
  - apply IH. exact H.
  - exfalso. apply existsb_string_In, H, existsb_string_In in E1. congruence.
  - exfalso. apply existsb_string_In, H, existsb_string_In in E2. congruence.
  - f_equal. apply IH. intros y. simpl. specialize (H y). tauto.
Qed.

Lemma sites_fold_names rs d :
  map fst (fold_left
             (fun d r => Dict.set String.eqb d (p_name r) (Site (p_lat r) (p_lon r) true)) rs d)
  = map fst d ++ unique_from (map fst d) (map p_name rs).
Proof.
  revert d. induction rs as [|r rs IH]; intros d; simpl; [rewrite app_nil_r; reflexivity|].
  rewrite IH. destruct (existsb (String.eqb (p_name r)) (map fst d)) eqn:E.
  - apply existsb_string_In in E.
    rewrite (Dict.map_fst_set _ _ String.eqb d (p_name r) _ (String.eqb_refl _) E). reflexivity.
  - assert (Hn : ~ In (p_name r) (map fst d)) by (rewrite <- existsb_string_In; congruence).
    rewrite (Dict.set_absent _ _ String.eqb d (p_name r) _ (dict_get_absent d _ Hn)).
    rewrite map_app, <- app_assoc. simpl. f_equal. f_equal.
    apply unique_from_equiv. intros x. rewrite in_app_iff. simpl. tauto.
Qed.

Lemma sites_of_rows_names rs : map fst (sites_of_rows rs) = unique (map p_name rs).
Proof. exact (sites_fold_names rs []). Qed.

Lemma sites_of_rows_get rs n :
  Dict.get String.eqb (sites_of_rows rs) n =
  option_map (fun r => Site (p_lat r) (p_lon r) true)
             (find (fun r => String.eqb (p_name r) n) (rev rs)).
Proof.
  unfold sites_of_rows. induction rs as [|r rs IH] using rev_ind; [reflexivity|].
  rewrite fold_left_app, rev_app_distr. simpl.
  destruct (String.eqb_spec (p_name r) n) as [<-|Hne]; simpl.
  - apply Dict.get_set_eq. apply String.eqb_refl.
  - rewrite Dict.get_set_ne; [exact IH | exact string_eqb_sound | exact Hne].
Qed.


(** What [get_isochrone] adds to the trace: at most its own request. *)
Lemma get_isochrone_trace net cl lon lat seconds w :
  exists ks, trace (snd (get_isochrone net cl lon lat seconds w)) = trace w ++ map (NetCall cl) ks.
Proof.
  unfold get_isochrone. cbv beta zeta.
  destruct (Dict.get key_eqb (cache w) (lon, lat, seconds)).
  - exists []. rewrite app_nil_r. reflexivity.
  - exists [(lon, lat, seconds)]. destruct (net cl (lon, lat, seconds)); reflexivity.
Qed.

Lemma project_layers_netcalls cl ks : project_layers (map (NetCall cl) ks) = [].
Proof. induction ks as [|k ks IH]; simpl; [reflexivity | exact IH]. Qed.

(** *** Requests a run makes *)

Section Requests.
Variable P : client -> key -> Prop.

(** Whatever [c] adds to the trace, each network call in it satisfies [P]. *)
Definition calls_only {A} (c : M A) : Prop :=
  forall w, exists new, trace (snd (c w)) = trace w ++ new /\
    forall cl k, In (NetCall cl k) new -> P cl k.

Lemma co_silent {A} (c : M A) : (forall w, trace (snd (c w)) = trace w) -> calls_only c.
Proof.
  intros H w. exists []. split; [rewrite H, app_nil_r; reflexivity | intros cl k []].
Qed.

Lemma co_emit e : (forall cl k, e <> NetCall cl k) -> calls_only (emit e).
Proof.
  intros He w. exists [e]. split; [reflexivity|].
  intros cl k [H|[]]. exfalso. exact (He cl k H).
Qed.

Lemma co_get_isochrone net cl lon lat seconds :
  P cl (lon, lat, seconds) -> calls_only (get_isochrone net cl lon lat seconds).
Proof.
  intros HP w. unfold get_isochrone. cbv beta zeta.
  destruct (Dict.get key_eqb (cache w) (lon, lat, seconds)).
  - exists []. split; [rewrite app_nil_r; reflexivity | intros ? ? []].
  - exists [NetCall cl (lon, lat, seconds)].
    destruct (net cl (lon, lat, seconds)); (split; [reflexivity|]);
      intros cl' k [H|[]]; inversion H; subst; exact HP.
Qed.

Lemma co_bind {A B} (c : M A) (f : A -> M B) :
  calls_only c -> (forall a, calls_only (f a)) -> calls_only (bind c f).
Proof.
  intros Hc Hf w. destruct (Hc w) as [n1 [T1 H1]]. unfold bind.
  destruct (c w) as [[a|h] w1]; simpl in T1.
  - destruct (Hf a w1) as [n2 [T2 H2]]. exists (n1 ++ n2).
    split; [rewrite T2, T1, app_assoc; reflexivity|].
    intros cl k Hin. apply in_app_or in Hin as [Hin|Hin]; auto.
  - exists n1. split; [exact T1 | exact H1].
Qed.

Lemma co_for_each {A} (l : list A) (body : A -> M unit) :
  (forall x, calls_only (body x)) -> calls_only (for_each l body).
Proof.
  intros Hb. induction l as [|x l IH]; simpl.
  - apply co_silent. reflexivity.
  - apply co_bind; [apply Hb | intros _; exact IH].
Qed.
End Requests.

Ltac co_step :=
  match goal with
  | |- calls_only _ (bind _ _) => apply co_bind; [|intro]
  | |- calls_only _ (ret _) => apply co_silent; reflexivity
  | |- calls_only _ stop => apply co_silent; reflexivity
  | |- calls_only _ (crash _) => apply co_silent; reflexivity
  | |- calls_only _ get_sess => apply co_silent; reflexivity
  | |- calls_only _ (put_sess _) => apply co_silent; reflexivity
  | |- calls_only _ (emit _) => apply co_emit; intros ? ?; discriminate
  | |- calls_only _ (get_isochrone _ _ _ _ _) => apply co_get_isochrone; split; reflexivity
  | |- calls_only _ (for_each _ _) => apply co_for_each; intro
  | |- calls_only _ (match ?x with _ => _ end) => destruct x
  | |- calls_only _ (let '(_, _) := ?x in _) => destruct x
  | |- calls_only _ (if ?b then _ else _) => destruct b
  end.

(** *** Layers of the drawing loops *)

Lemma validate_location_inl_eq la lo w r w' :
  validate_location la lo w = (inl r, w') -> w' = w.
Proof. intros H. exact (proj2 (proj2 (validate_location_inl _ _ _ _ _ H))). Qed.

Lemma project_body_layers net cl seconds e w w' :
  project_body net cl seconds e w = (inl tt, w') ->
  sess w' = sess w /\ exists new, trace w' = trace w ++ new /\
    project_layers new = if visible (snd e) then [fst e] else [].
Proof.
  destruct e as [pname pdata]. unfold project_body. simpl.
  destruct (visible pdata).
  - intros H. apply bind_cases in H as [[iso [w1 [G H]]]|[h [_ Hh]]]; [|discriminate Hh].
    apply bind_cases in H as [[[] [w2 [V H]]]|[h [_ Hh]]]; [|discriminate Hh].
    apply validate_location_inl_eq in V. subst w2.
    unfold bind, emit in H. simpl in H. inversion H; subst w'. clear H. simpl.
    pose proof (get_isochrone_sess net cl (lon pdata) (lat pdata) seconds w) as Hs.
    destruct (get_isochrone_trace net cl (lon pdata) (lat pdata) seconds w) as [ks T1].
    rewrite G in Hs, T1. simpl in Hs, T1. split; [exact Hs|].
    exists (map (NetCall cl) ks ++ [ProjectLayer pname iso; Sleep 1]). split.
    + rewrite T1, <- !app_assoc. reflexivity.
    + rewrite project_layers_app, project_layers_netcalls. reflexivity.
  - unfold ret. intros Heq. inversion Heq; subst. split; [reflexivity|].
    exists []. rewrite app_nil_r. split; reflexivity.
Qed.

Lemma project_loop_layers net cl seconds sites w w' :
  for_each sites (project_body net cl seconds) w = (inl tt, w') ->
  sess w' = sess w /\ exists new, trace w' = trace w ++ new /\
    project_layers new = map fst (filter (fun e => visible (snd e)) sites).
Proof.
  revert w. induction sites as [|e sites IH]; intros w.
  - simpl. unfold ret. intros Heq. inversion Heq; subst. split; [reflexivity|].
    exists []. rewrite app_nil_r. split; reflexivity.
  - rewrite for_each_cons.
    destruct (project_body net cl seconds e w) as [[[]|h] w1] eqn:B; [|discriminate].
    intros H. destruct (project_body_layers _ _ _ _ _ _ B) as [S1 [n1 [T1 L1]]].
    destruct (IH w1 H) as [S2 [n2 [T2 L2]]].
    split; [congruence|]. exists (n1 ++ n2). split; [rewrite T2, T1, app_assoc; reflexivity|].
    rewrite project_layers_app, L1, L2. simpl.
    destruct (visible (snd e)); reflexivity.
Qed.

(** The company loop adds no project layer. *)
Definition no_project_layer (w w' : world) : Prop :=
  exists new, trace w' = trace w ++ new /\ project_layers new = [].

Lemma no_project_layer_refl : forall w, no_project_layer w w.
Proof. intros w. exists []. rewrite app_nil_r. split; reflexivity. Qed.

Lemma no_project_layer_trans : forall w1 w2 w3,
  no_project_layer w1 w2 -> no_project_layer w2 w3 -> no_project_layer w1 w3.
Proof.
  intros w1 w2 w3 [n1 [T1 L1]] [n2 [T2 L2]]. exists (n1 ++ n2).
  rewrite T2, T1, app_assoc, project_layers_app, L1, L2. split; reflexivity.
Qed.

Lemma get_isochrone_npl net cl lon lat seconds :
  keeps no_project_layer (get_isochrone net cl lon lat seconds).
Proof.
  intros w. destruct (get_isochrone_trace net cl lon lat seconds w) as [ks T].
  exists (map (NetCall cl) ks). split; [exact T | apply project_layers_netcalls].
Qed.

Lemma emit_company_npl loc color iso : keeps no_project_layer (emit (CompanyLayer loc color iso)).
Proof. intros w. exists [CompanyLayer loc color iso]. split; reflexivity. Qed.

Lemma emit_sleep_npl s : keeps no_project_layer (emit (Sleep s)).
Proof. intros w. exists [Sleep s]. split; reflexivity. Qed.

Create HintDb npldb.
Local Hint Resolve get_isochrone_npl emit_company_npl emit_sleep_npl : npldb.

Lemma competitor_isochrones_npl net cl seconds cdf colors :
  keeps no_project_layer (competitor_isochrones net cl seconds cdf colors).
Proof.
  pose proof no_project_layer_refl. pose proof no_project_layer_trans.
  unfold competitor_isochrones, competitor_body, validate_location, check_coord.
  repeat (keeps_step || (solve [eauto with npldb])).
Qed.

Lemma competitor_isochrones_sess net cl seconds cdf colors :
  keeps sess_same (competitor_isochrones net cl seconds cdf colors).
Proof.
  pose proof sess_same_refl. pose proof sess_same_trans.
  unfold competitor_isochrones, competitor_body, validate_location, check_coord.
  repeat (keeps_step || (solve [eauto with sessdb])).
Qed.

(** *** The cache holds provider answers *)

Definition cache_sound (net : network) (w : world) : Prop :=
  forall k iso, Dict.get key_eqb (cache w) k = Some iso -> exists cl, net cl k = inl iso.

Definition sound_kept (net : network) (w w' : world) : Prop := cache_sound net w -> cache_sound net w'.

Lemma sound_kept_refl net : forall w, sound_kept net w w.
Proof. intros w H. exact H. Qed.

Lemma sound_kept_trans net : forall w1 w2 w3,
  sound_kept net w1 w2 -> sound_kept net w2 w3 -> sound_kept net w1 w3.
Proof. intros w1 w2 w3 H1 H2 H. auto. Qed.

Lemma get_isochrone_sound net cl lon lat seconds :
  keeps (sound_kept net) (get_isochrone net cl lon lat seconds).
Proof.
  intros w H k iso. unfold get_isochrone. cbv beta zeta.
  destruct (Dict.get key_eqb (cache w) (lon, lat, seconds)) eqn:E; [apply H|].
  destruct (net cl (lon, lat, seconds)) as [p|err] eqn:N; simpl; [|apply H].
  destruct (key_eqb (lon, lat, seconds) k) eqn:Ek.
  - apply key_eqb_sound in Ek. subst k.
    rewrite Dict.get_set_eq by apply key_eqb_refl. intros Hp. inversion Hp; subst.
    exists cl. exact N.
  - rewrite Dict.get_set_ne; [apply H | exact key_eqb_sound |].
    intros Heq. subst k. rewrite key_eqb_refl in Ek. discriminate.
Qed.

Lemma emit_sound net e : keeps (sound_kept net) (emit e).
Proof. intros w H. exact H. Qed.

Lemma put_sess_sound net s : keeps (sound_kept net) (put_sess s).
Proof. intros w H. exact H. Qed.

Create HintDb sounddb.
Local Hint Resolve get_isochrone_sound emit_sound put_sess_sound : sounddb.

(** *** Which errors end a run *)








(** ** Extras *)

(** Extra X1 (lines 19-28): the key typed in the sidebar is stored in the
    session and survives the run however it ends; an empty input keeps the
    key stored by an earlier run. *)
Theorem run_remembers_api_key net inp w :
  api_key (sess (snd (run net inp w))) =
  if String.eqb (api_key_input inp) EmptyString then api_key (sess w) else api_key_input inp.
Proof. rewrite run_api_key. apply with_key_api_key. Qed.

(** Extra X2 (lines 45-48): with a key but no uploaded file the run shows
    the upload prompt and stops; only the key is stored, nothing is
    fetched. *)
Theorem run_without_file net inp w :
  (api_key_input inp <> EmptyString \/ api_key (sess w) <> EmptyString) ->
  uploaded_file inp = None ->
  run net inp w =
    (inr Stopped, World (cache w) (with_key (api_key_input inp) (sess w))
                        (trace w ++ [Info no_file_info])).
Proof.
  intros Hk Hf. apply run_setup_halt.
  pose proof (with_key_entered _ _ Hk) as Ek.
  unfold setup. rewrite (bind_inl _ _ _ _ _ (store_api_key_eq _ w)).
  unfold make_client, bind, get_sess, emit, stop, ret. simpl. rewrite Ek, Hf. reflexivity.
Qed.

(** Extra X3 (lines 51-63): a file that cannot be read, or that lacks the
    "Companies" sheet or (with "Companies" present) the "Projects" sheet,
    gives one "Error loading data: ..." message naming the cause and stops
    the run; the cache and the session's data are untouched. *)
Theorem run_unloadable_file net inp w :
  (api_key_input inp <> EmptyString \/ api_key (sess w) <> EmptyString) ->
  let s1 := with_key (api_key_input inp) (sess w) in
  let stops msg :=
    run net inp w = (inr Stopped, World (cache w) s1 (trace w ++ [ErrorMsg (load_error_msg msg)])) in
  (forall cause, uploaded_file inp = Some (Malformed cause) -> stops cause) /\
  (forall pdf, uploaded_file inp = Some (Workbook None pdf) ->
     stops "Worksheet named 'Companies' not found") /\
  (forall cdf, uploaded_file inp = Some (Workbook (Some cdf) None) ->
     stops "Worksheet named 'Projects' not found").
Proof.
  intros Hk s1 stops. unfold stops, s1. clear stops s1.
  pose proof (with_key_entered _ _ Hk) as Ek.
  split; [|split]; intros x Hf; cbv beta; apply run_setup_halt; rewrite (setup_with_file inp w _ Ek Hf);
    reflexivity.
Qed.

(** Extra X4 (lines 56-59): when the "Companies" sheet has all its columns
    and the "Projects" sheet lacks one, the run reports the first missing
    "Projects" column in the order 'Project Name', 'Latitude', 'Longitude'
    and stops. *)
Theorem run_missing_project_column net inp w cdf pdf col :
  (api_key_input inp <> EmptyString \/ api_key (sess w) <> EmptyString) ->
  uploaded_file inp = Some (Workbook (Some cdf) (Some pdf)) ->
  (forall c, In c companies_required -> In c (columns cdf)) ->
  In col projects_required -> ~ In col (columns pdf) ->
  exists c pre post,
    run net inp w =
      (inr Stopped, World (cache w) (with_key (api_key_input inp) (sess w))
         (trace w ++ [ErrorMsg (load_error_msg (missing_column_msg "Projects" c))])) /\
    projects_required = pre ++ c :: post /\
    (forall c', In c' pre -> In c' (columns pdf)) /\ ~ In c (columns pdf).
Proof.
  intros Hk Hf Hc Hin Hout. pose proof (with_key_entered _ _ Hk) as Ek.
  destruct (first_missing_some projects_required (columns pdf) col Hin Hout) as [c Hp].
  destruct (first_missing_first _ _ _ Hp) as [pre [post [Hr [Hpre Hnc]]]].
  exists c, pre, post. split; [|auto].
  apply run_setup_halt. rewrite (setup_with_file inp w _ Ek Hf).
  unfold load. rewrite (first_missing_none _ _ Hc), Hp. reflexivity.
Qed.

(** Extra X5 (lines 66-72): on a session without project sites, one site
    per distinct 'Project Name' in order of first appearance; a repeated
    name keeps its first position but takes the coordinates of its last
    row; every site starts visible. *)
Theorem init_project_sites_from_file pdf w :
  project_sites (sess w) = [] ->
  let ps := project_sites (sess (snd (init_project_sites pdf w))) in
  map fst ps = unique (map p_name (rows pdf)) /\
  (forall n, Dict.get String.eqb ps n =
     option_map (fun r => Site (p_lat r) (p_lon r) true)
                (find (fun r => String.eqb (p_name r) n) (rev (rows pdf)))).
Proof.
  intros H ps. unfold ps. rewrite init_project_sites_ok. simpl. unfold init_sites. rewrite H.
  split; [apply sites_of_rows_names | apply sites_of_rows_get].
Qed.

(** Extra X6 (lines 85-88): the company loop never fails and touches only
    the two company fields of the session.  A location the visibility dict
    already finds keeps its entry; any other location read from the sheet
    gets the entry [True]; every location read (a NaN made afresh by
    [iterrows] included) becomes a key of the dict, although such a NaN is
    found by no later lookup; [all_competitors] becomes the union of the old
    set and the sheet's locations, with no two members that Python's set
    would take as equal. *)
Theorem init_competitors_registry cdf w :
  let w' := snd (init_competitors cdf w) in
  let locs := map (location cdf) (rows cdf) in
  fst (init_competitors cdf w) = inl tt /\
  cache w' = cache w /\ trace w' = trace w /\
  project_sites (sess w') = project_sites (sess w) /\ api_key (sess w') = api_key (sess w) /\
  (forall n, Dict.get py_eqb (competitor_visibility (sess w')) n =
     match Dict.get py_eqb (competitor_visibility (sess w)) n with
     | Some b => Some b
     | None => if existsb (py_eqb n) locs then Some true else None
     end) /\
  (forall n, In n locs -> In n (map fst (competitor_visibility (sess w')))) /\
  (forall n, In n (all_competitors (sess w')) <-> In n (all_competitors (sess w)) \/ In n locs) /\
  (distinct_by py_eqb (all_competitors (sess w)) ->
   distinct_by py_eqb (all_competitors (sess w'))).
Proof.
  intros w' locs. unfold w', locs. rewrite init_competitors_eq. simpl.
  destruct (register_all_spec (map (location cdf) (rows cdf)) (competitor_visibility (sess w))
              (all_competitors (sess w))) as [H1 [H2 [H3 H4]]].
  do 5 (split; [reflexivity|]). split; [exact H1|].
  split; [intros n Hn; apply H4; right; exact Hn|].
  split; [exact H2 | exact H3].
Qed.


(** Extra X8 (lines 65-93): the session is written before anything is
    drawn: once the file is loaded, the project sites (with the checkbox
    states), the company entries and the key are saved whatever happens
    while fetching and drawing, provider errors included.  Every location
    of the sheet is a key of the visibility dict and a member of
    [all_competitors]; a lookup finds it unless it is a NaN made afresh by
    [iterrows]. *)
Theorem run_saves_session_after_load net inp w cdf pdf :
  (api_key_input inp <> EmptyString \/ api_key (sess w) <> EmptyString) ->
  uploaded_file inp = Some (Workbook (Some cdf) (Some pdf)) ->
  first_missing companies_required (columns cdf) = None ->
  first_missing projects_required (columns pdf) = None ->
  let s' := sess (snd (run net inp w)) in
  project_sites s' = update_sites (checkbox inp) (init_sites (project_sites (sess w)) pdf) /\
  (forall n b, Dict.get py_eqb (competitor_visibility (sess w)) n = Some b ->
               Dict.get py_eqb (competitor_visibility s') n = Some b) /\
  (forall row, In row (rows cdf) -> In (location cdf row) (map fst (competitor_visibility s'))) /\
  (forall row, In row (rows cdf) -> location cdf row <> PNaN false ->
     Dict.get py_eqb (competitor_visibility s') (location cdf row) <> None) /\
  (forall row, In row (rows cdf) -> In (location cdf row) (all_competitors s')) /\
  api_key s' = if String.eqb (api_key_input inp) EmptyString then api_key (sess w)
               else api_key_input inp.
Proof.
  intros Hk Hf Hc Hp s'. unfold s'. rewrite (run_loaded_session net inp w cdf pdf Hk Hf Hc Hp).
  destruct (with_key_fields (api_key_input inp) (sess w)) as [Hcv [Hps Hac]].
  unfold loaded_session. simpl. rewrite Hcv, Hps, Hac.
  destruct (register_all_spec (map (location cdf) (rows cdf)) (competitor_visibility (sess w))
              (all_competitors (sess w))) as [H1 [H2 [_ H4]]].
  split; [reflexivity|]. split; [|split; [|split; [|split]]].
  - intros n b Hb. rewrite H1, Hb. reflexivity.
  - intros row Hrow. apply H4. right. apply in_map. exact Hrow.
  - intros row Hrow Hn.
    destruct (register_all_found (map (location cdf) (rows cdf)) (competitor_visibility (sess w))
                (all_competitors (sess w)) (location cdf row)) as [b Hb];
      [apply in_map; exact Hrow | exact Hn |].
    rewrite Hb. discriminate.
  - intros row Hrow. apply H2. right. apply in_map. exact Hrow.
  - apply with_key_api_key.
Qed.

(** Extra X9 (lines 74-82 and 108-143): every request a run sends to the
    provider goes through the client built from the API key the session
    holds at the end of the run, and asks for a range of [manual_minutes]
    (the number input, 1 to 300) times 60 seconds. *)
Theorem run_requests net inp w :
  exists new, trace (snd (run net inp w)) = trace w ++ new /\
  forall cl k, In (NetCall cl k) new ->
    cl = Client (api_key (sess (snd (run net inp w)))) /\ snd k = minutes inp * 60.
Proof.
  rewrite run_api_key.
  destruct (setup_outcome inp w) as [[e [He E]]|[cdf [pdf [E _]]]].
  - rewrite (run_setup_halt net _ _ _ _ E). exists [e]. split; [reflexivity|].
    intros cl k [H|[]]. exfalso. exact (He cl k H).
  - rewrite (run_render net _ _ _ _ _ _ E).
    assert (Hc : calls_only
      (fun cl k => cl = Client (api_key (with_key (api_key_input inp) (sess w))) /\
                   snd k = minutes inp * 60)
      (render net inp (Client (api_key (with_key (api_key_input inp) (sess w)))) cdf pdf)).
    { unfold render, init_project_sites, init_competitors, register_competitor,
        update_project_visibility, map_init, project_isochrones, competitor_isochrones,
        project_body, competitor_body, validate_location, check_coord.
      cbv zeta. repeat co_step. }
    exact (Hc _).
Qed.

(** Extra X10 (lines 99-105 and 146-170): a run that completes ends by
    showing the map and then the legend; the legend lists the values of
    'Company Name' as [unique()] gives them, each once, in order of first
    appearance. *)
Theorem run_legend net inp w cdf pdf :
  uploaded_file inp = Some (Workbook (Some cdf) pdf) ->
  fst (run net inp w) = inl tt ->
  exists mid colors,
    trace (snd (run net inp w)) = trace w ++ mid ++ [MapShown; Legend colors] /\
    map fst colors = series_unique (map (company_name cdf) (rows cdf)).
Proof.
  intros Hu H. destruct (run_completed net inp w H) as [cdf' [pdf' [Hf [_ [_ [_ [_ Hr]]]]]]].
  rewrite Hu in Hf. inversion Hf; subst cdf' pdf. clear Hf.
  cbv zeta in Hr. destruct Hr as [w5 [w6 [E5 [E6 Ew]]]].
  rewrite project_isochrones_eq in E5.
  destruct (project_loop_layers _ _ _ _ _ _ E5) as [_ [n1 [T1 _]]].
  destruct (keeps_result _ _ _ _ _ (competitor_isochrones_npl _ _ _ _ _) E6) as [n2 [T2 _]].
  exists (n1 ++ n2), (company_colors (series_unique (map (company_name cdf) (rows cdf)))). split.
  - rewrite Ew. simpl. simpl in T1. rewrite T2, T1, <- !app_assoc. reflexivity.
  - apply map_fst_company_colors.
    apply (distinct_by_weaken py_eqb unique_eqb); [exact unique_eqb_of_py|].
    apply series_unique_distinct.
Qed.

(** Extra X11 (lines 108-123): a run that completes draws one project
    layer for each site marked visible in the session it leaves, in the
    order of the session's project sites, and no other project layer. *)
Theorem run_project_layers net inp w :
  fst (run net inp w) = inl tt ->
  exists new, trace (snd (run net inp w)) = trace w ++ new /\
    project_layers new =
    map fst (filter (fun e => visible (snd e)) (project_sites (sess (snd (run net inp w))))).
Proof.
  intros H. destruct (run_completed net inp w H) as [cdf [pdf [_ [_ [_ [_ [_ Hr]]]]]]].
  cbv zeta in Hr. destruct Hr as [w5 [w6 [E5 [E6 Ew]]]].
  rewrite project_isochrones_eq in E5.
  destruct (project_loop_layers _ _ _ _ _ _ E5) as [S1 [n1 [T1 L1]]].
  destruct (keeps_result _ _ _ _ _ (competitor_isochrones_npl _ _ _ _ _) E6) as [n2 [T2 L2]].
  pose proof (keeps_result _ _ _ _ _ (competitor_isochrones_sess _ _ _ _ _) E6) as S2.
  unfold sess_same in S2.
  rewrite Ew. simpl.
  exists (n1 ++ n2 ++ [MapShown; Legend (company_colors
                                          (series_unique (map (company_name cdf) (rows cdf))))]).
  split.
  - simpl in T1. rewrite T2, T1, <- !app_assoc. reflexivity.
  - rewrite !project_layers_app, L1, L2. simpl. rewrite !app_nil_r, S2, S1. reflexivity.
Qed.

(** Extra X12 (lines 74-82): every polygon in the cache is an answer the
    provider gave for its (lon, lat, seconds) key: a run that starts from
    such a cache leaves such a cache, whether it completes, stops or
    fails. *)
Theorem run_keeps_cache_sound net inp w :
  cache_sound net w -> cache_sound net (snd (run net inp w)).
Proof.
  enough (K : keeps (sound_kept net) (run net inp)) by exact (K w).
  pose proof (sound_kept_refl net). pose proof (sound_kept_trans net).
  unfold run, setup, store_api_key, make_client, load, init_project_sites,
    init_competitors, register_competitor, update_project_visibility, map_init,
    project_isochrones, competitor_isochrones, project_body, competitor_body,
    validate_location, check_coord.
  repeat (keeps_step || (progress unfold Datatypes.fst, Datatypes.snd)
          || (solve [eauto with sounddb]) || (destruct (String.eqb _ _))).
Qed.


(** Examples for the extras. *)

Definition x_unreadable : inputs :=
  Inputs "k" 10 (Some (Malformed "File is not a zip file")) (fun _ v => v).

Definition x_projects_no_lon : sheet project_row :=
  Sheet ["Project Name"; "Latitude"] [ProjectRow "Site A" (flt 40000000) (flt (-74000000))].

Definition x_no_lon_inputs : inputs :=
  Inputs "k" 10 (Some (Workbook (Some ex_companies) (Some x_projects_no_lon))) (fun _ v => v).

Definition x_dup_projects : sheet project_row :=
  Sheet projects_required
    [ProjectRow "Site A" (flt 1) (flt 2); ProjectRow "Site B" (flt 3) (flt 4);
     ProjectRow "Site A" (flt 5) (flt 6)].


Definition x_three_companies : sheet company_row :=
  Sheet companies_required
    [CompanyRow (txt "Acme HQ") (txt "Acme") (flt 40100000) (flt (-74100000));
     CompanyRow (txt "Beta HQ") (txt "Beta") (flt 40200000) (flt (-74200000));
     CompanyRow (txt "Acme East") (txt "Acme") (flt 40300000) (flt (-74300000))].
Definition x_two_projects : sheet project_row :=
  Sheet projects_required
    [ProjectRow "Site A" (flt 40000000) (flt (-74000000));
     ProjectRow "Site B" (flt 41000000) (flt (-75000000))].
Definition x_hide_b_inputs : inputs :=
  Inputs "k" 10 (Some (Workbook (Some x_three_companies) (Some x_two_projects)))
    (fun n v => if String.eqb n "Site B" then false else v).
Definition x_start : world := World [] empty_session [].


Lemma run_without_file_witness :
  run ex_net (Inputs "k" 10 None (fun _ v => v)) (World [] empty_session []) =
    (inr Stopped, World [] (Session [] [] [] "k") [Info no_file_info]).
Proof.
  apply (run_without_file ex_net (Inputs "k" 10 None (fun _ v => v)) (World [] empty_session [])).
  - left. discriminate.
  - reflexivity.
Defined.

Lemma run_unloadable_file_witness :
  run ex_net x_unreadable (World [] empty_session []) =
    (inr Stopped, World [] (Session [] [] [] "k")
                        [ErrorMsg (load_error_msg "File is not a zip file")]).
Proof.
  assert (Hk : api_key_input x_unreadable <> EmptyString \/
               api_key (sess (World [] empty_session [])) <> EmptyString) by (left; discriminate).
  destruct (run_unloadable_file ex_net x_unreadable (World [] empty_session []) Hk) as [H _].
  exact (H _ eq_refl).
Defined.

Lemma run_missing_project_column_witness :
  exists c pre post,
    run ex_net x_no_lon_inputs (World [] empty_session []) =
      (inr Stopped, World [] (Session [] [] [] "k")
         [ErrorMsg (load_error_msg (missing_column_msg "Projects" c))]) /\
    projects_required = pre ++ c :: post /\
    (forall c', In c' pre -> In c' (columns x_projects_no_lon)) /\
    ~ In c (columns x_projects_no_lon).
Proof.
  assert (Hk : api_key_input x_no_lon_inputs <> EmptyString \/
               api_key (sess (World [] empty_session [])) <> EmptyString) by (left; discriminate).
  assert (Hc : forall c, In c companies_required -> In c (columns ex_companies)) by (intros c H; exact H).
  assert (Hin : In "Longitude" projects_required) by (simpl; tauto).
  assert (Hout : ~ In "Longitude" (columns x_projects_no_lon))
    by (simpl; intros H; repeat (destruct H as [H|H]; [discriminate H|]); exact H).
  exact (run_missing_project_column ex_net x_no_lon_inputs (World [] empty_session [])
           ex_companies x_projects_no_lon "Longitude" Hk eq_refl Hc Hin Hout).
Defined.

Lemma init_project_sites_from_file_witness :
  let ps := project_sites (sess (snd (init_project_sites x_dup_projects
                                         (World [] empty_session [])))) in
  map fst ps = ["Site A"; "Site B"] /\
  Dict.get String.eqb ps "Site A" = Some (Site (flt 5) (flt 6) true).
Proof.
  destruct (init_project_sites_from_file x_dup_projects (World [] empty_session []) eq_refl)
    as [H1 H2].
  split; [rewrite H1 | rewrite H2]; reflexivity.
Defined.


Lemma run_saves_session_after_load_witness :
  let s' := sess (snd (run net_fail ex_inputs (World [] empty_session []))) in
  fst (run net_fail ex_inputs (World [] empty_session [])) = inr (Crashed "Quota exceeded") /\
  project_sites s' = [("Site A", Site (flt 40000000) (flt (-74000000)) true)] /\
  In (PStr "Acme HQ") (all_competitors s').
Proof.
  assert (Hk : api_key_input ex_inputs <> EmptyString \/
               api_key (sess (World [] empty_session [])) <> EmptyString) by (left; discriminate).
  destruct (run_saves_session_after_load net_fail ex_inputs (World [] empty_session [])
              ex_companies ex_projects Hk eq_refl eq_refl eq_refl) as [H1 [_ [_ [_ [H5 _]]]]].
  split; [reflexivity|]. split.
  - rewrite H1. reflexivity.
  - exact (H5 (CompanyRow (txt "Acme HQ") (txt "Acme") (flt 40100000) (flt (-74100000)))
              (or_introl eq_refl)).
Defined.

Lemma run_legend_witness :
  uploaded_file x_hide_b_inputs = Some (Workbook (Some x_three_companies) (Some x_two_projects)) /\
  fst (run ex_net x_hide_b_inputs x_start) = inl tt /\
  series_unique (map (company_name x_three_companies) (rows x_three_companies)) =
    [PStr "Acme"; PStr "Beta"] /\
  exists mid colors,
    trace (snd (run ex_net x_hide_b_inputs x_start)) = [] ++ mid ++ [MapShown; Legend colors] /\
    map fst colors = series_unique (map (company_name x_three_companies) (rows x_three_companies)).
Proof.
  assert (Hu : uploaded_file x_hide_b_inputs =
               Some (Workbook (Some x_three_companies) (Some x_two_projects))) by reflexivity.
  assert (Hr : fst (run ex_net x_hide_b_inputs x_start) = inl tt) by (vm_compute; reflexivity).
  split; [exact Hu|]. split; [exact Hr|]. split; [reflexivity|].
  exact (run_legend ex_net x_hide_b_inputs x_start x_three_companies (Some x_two_projects) Hu Hr).
Defined.

Lemma run_project_layers_witness :
  fst (run ex_net x_hide_b_inputs x_start) = inl tt /\
  map fst (filter (fun e => visible (snd e))
    (project_sites (sess (snd (run ex_net x_hide_b_inputs x_start))))) = ["Site A"] /\
  exists new, trace (snd (run ex_net x_hide_b_inputs x_start)) = [] ++ new /\
    project_layers new =
    map fst (filter (fun e => visible (snd e))
      (project_sites (sess (snd (run ex_net x_hide_b_inputs x_start))))).
Proof.
  assert (Hr : fst (run ex_net x_hide_b_inputs x_start) = inl tt) by (vm_compute; reflexivity).
  split; [exact Hr|]. split; [vm_compute; reflexivity|].
  exact (run_project_layers ex_net x_hide_b_inputs x_start Hr).
Defined.

Lemma run_keeps_cache_sound_witness :
  cache_sound ex_net c1_world /\ cache_sound ex_net (snd (run ex_net ex_inputs c1_world)).
Proof.
  assert (H : cache_sound ex_net c1_world).
  { intros k iso Hk. exists (Client "k"). unfold c1_world in Hk. simpl in Hk.
    match type of Hk with (if ?b then _ else _) = _ => destruct b end;
      inversion Hk; reflexivity. }
  split; [exact H | exact (run_keeps_cache_sound ex_net ex_inputs c1_world H)].
Defined.

